(** * Spotifaux backend: authentication and playlist core

    A shallow embedding of [spotifaux-backend/main.py] and the properties
    of its authentication layer and of its owner-scoped playlist CRUD.

    Conventions of the embedding.
    - Python text is a Rocq [string]; a character stands for one code point
      below 256, and the character classes below are Python's restricted
      to that range.
    - Python integers are [Z] (unbounded; CPython's cap on the length of a
      decimal conversion is outside the model).
    - The module globals [RAW_USERS], [USERS_BY_EMAIL], [RAW_PLAYLISTS] and
      the two JSON files the handlers rewrite are the fields of one [state]
      record; a handler is a function from a state to an outcome and the
      state it leaves behind, also when it raises.
    - The clock ([datetime.utcnow()]) and the salt drawn by the password
      hasher are explicit arguments.
    - passlib's [CryptContext] and jose's [jwt] are not part of the
      repository; they are the fields of the class [Environment], and what
      a theorem needs from them is a named hypothesis of that theorem. *)

From Stdlib Require Import ZArith String Ascii List Lia Bool.
From Stdlib Require Import DecimalString DecimalZ DecimalPos.
From stdpp Require Import base gmap list strings.

Local Open Scope string_scope.
Local Open Scope list_scope.
Local Open Scope Z_scope.

(** ** Python text primitives *)

Module PyStr.

Definition code (c : ascii) : nat := nat_of_ascii c.

Definition between (lo hi n : nat) : bool := (lo <=? n)%nat && (n <=? hi)%nat.

  (** [str.isspace] on one character: TAB..CR, FS..US, SPACE, NEL, NBSP. *)
Definition is_space (c : ascii) : bool :=
    between 9 13 (code c) || between 28 32 (code c)
    || (code c =? 133)%nat || (code c =? 160)%nat.

  (** The blanks [int()] skips around a literal: the C-locale ones, and the
      non-ASCII spaces, which the conversion first rewrites to SPACE. *)
Definition is_int_space (c : ascii) : bool :=
    between 9 13 (code c) || (code c =? 32)%nat
    || (code c =? 133)%nat || (code c =? 160)%nat.

Definition is_digit (c : ascii) : bool := between 48 57 (code c).

Definition not_digit (c : ascii) : bool := negb (is_digit c).

  (** [str.lower] on one character: A-Z and the Latin-1 capitals
      (U+00C0..U+00DE without the multiplication sign) move up by 32. *)
Definition lower_char (c : ascii) : ascii :=
    if between 65 90 (code c)
       || (between 192 222 (code c) && negb (code c =? 215)%nat)
    then ascii_of_nat (code c + 32) else c.

Fixpoint lower (s : string) : string :=
    match s with
    | EmptyString => EmptyString
    | String c r => String (lower_char c) (lower r)
    end.

Section Strip.
Variable drop : ascii -> bool.

Fixpoint lstrip_by (s : string) : string :=
      match s with
      | EmptyString => EmptyString
      | String c r => if drop c then lstrip_by r else s
      end.

Fixpoint rstrip_by (s : string) : string :=
      match s with
      | EmptyString => EmptyString
      | String c r =>
          match rstrip_by r with
          | EmptyString => if drop c then EmptyString else String c EmptyString
          | String d r' => String c (String d r')
          end
      end.

Definition strip_by (s : string) : string := lstrip_by (rstrip_by s).

(** No character of the text is in the class. *)
Fixpoint free_of (s : string) : Prop :=
  match s with
  | EmptyString => True
  | String c r => drop c = false /\ free_of r
  end.
End Strip.

  (** [s.strip()] *)
Definition strip (s : string) : string := strip_by is_space s.

  (** [s.rstrip("/")] *)
Definition rstrip_slash (s : string) : string :=
    rstrip_by (fun c => Ascii.eqb c "/") s.

  (** [s.split(sep)[0]] for a one-character separator. *)
Fixpoint split_head (sep : ascii) (s : string) : string :=
    match s with
    | EmptyString => EmptyString
    | String c r => if Ascii.eqb c sep then EmptyString else String c (split_head sep r)
    end.

  (** [str(n)] for an integer. *)
Definition str_of_int (n : Z) : string := NilZero.string_of_int (Z.to_int n).

  (** The digits of a decimal literal, with the single underscores Python
      allows between two digits removed; [after_digit] tells whether the
      previous character was a digit. *)
Fixpoint literal_digits (after_digit : bool) (s : string) : option string :=
    match s with
    | EmptyString => if after_digit then Some EmptyString else None
    | String c r =>
        if is_digit c then String c <$> literal_digits true r
        else if Ascii.eqb c "_" && after_digit then literal_digits false r
        else None
    end.

Definition unsigned_literal (s : string) : option Z :=
    ds ← literal_digits false s;
    Z.of_uint <$> NilEmpty.uint_of_string ds.

  (** [int(s)] for a string: [None] stands for [ValueError]. *)
Definition int_of_str (s : string) : option Z :=
    match strip_by is_int_space s with
    | String "-" r => Z.opp <$> unsigned_literal r
    | String "+" r => unsigned_literal r
    | r => unsigned_literal r
    end.

Fixpoint join (sep : string) (l : list string) : string :=
    match l with
    | [] => EmptyString
    | [x] => x
    | x :: r => x +:+ sep +:+ join sep r
    end.

  (** [str(l)] for a list of integers, as an f-string renders it. *)
Definition str_of_int_list (l : list Z) : string :=
    "[" +:+ join ", " (map str_of_int l) +:+ "]".

End PyStr.


(** ** Records of the data files and of the request and response bodies *)

Module Track.
  (** An element of [tracks.json]. *)
Record t := mk { id : Z; title : string; artist : string; preview_file : string }.

  (** What [serialize_track] returns: [preview_file] replaced by [preview]. *)
Record out := mk_out
    { out_id : Z; out_title : string; out_artist : string; preview : string }.
End Track.

Module User.
  (** An element of [users.json]. The keys the code reads with
      [.get(key, default)] are optional. *)
Record t := mk
    { id : Z; email : string; password : option string;
      name : option string; role : option string }.
End User.

Module PublicUser.
Record t := mk { id : Z; email : string; name : string; role : string }.
End PublicUser.

Module Playlist.
  (** An element of [playlists.json]. *)
Record t := mk
    { id : Z; user_id : Z; name : string; tracks : list Z;
      created_at : option string; updated_at : option string }.

Definition set_name (v : string) (p : t) : t :=
    mk (id p) (user_id p) v (tracks p) (created_at p) (updated_at p).
Definition set_tracks (v : list Z) (p : t) : t :=
    mk (id p) (user_id p) (name p) v (created_at p) (updated_at p).
Definition set_updated_at (v : string) (p : t) : t :=
    mk (id p) (user_id p) (name p) (tracks p) (created_at p) (Some v).
End Playlist.

Module PlaylistOut.
Record t := mk
    { id : Z; user_id : Z; name : string; tracks : list Track.out;
      created_at : option string; updated_at : option string }.
End PlaylistOut.

Module LoginIn.
Record t := mk { email : string; password : string }.
End LoginIn.

Module SignupIn.
Record t := mk { email : string; password : string; name : option string }.
End SignupIn.

Module PlaylistIn.
Record t := mk { name : string; tracks : list Z }.
End PlaylistIn.

Module PlaylistUpdate.
Record t := mk { name : option string; tracks : option (list Z) }.
End PlaylistUpdate.

(** The claims of a session token: [sub] and [exp] (seconds). *)
Record claims := Claims { sub : option string; exp : option Z }.

(** An argument of [_ensure_str]: text or a byte sequence. *)
Inductive text_arg :=
| PStr (s : string)
| PBytes (b : list Byte.byte).

(** ** Process state *)

Record state := State
  { RAW_TRACKS : list Track.t;
    TRACK_BY_ID : gmap Z Track.t;
    RAW_USERS : list User.t;
    USERS_BY_EMAIL : gmap string User.t;
    RAW_PLAYLISTS : list Playlist.t;
    USER_DATA_FILE : list User.t;
    PLAYLIST_DATA_FILE : list Playlist.t }.

Definition set_users (us : list User.t) (ix : gmap string User.t) (st : state) : state :=
  State (RAW_TRACKS st) (TRACK_BY_ID st) us ix
        (RAW_PLAYLISTS st) (USER_DATA_FILE st) (PLAYLIST_DATA_FILE st).

Definition set_playlists (ps : list Playlist.t) (st : state) : state :=
  State (RAW_TRACKS st) (TRACK_BY_ID st) (RAW_USERS st) (USERS_BY_EMAIL st)
        ps (USER_DATA_FILE st) (PLAYLIST_DATA_FILE st).

(** Module start-up: the three files are read, a missing playlist file is
    the empty list (as a persisted set, a missing file and an empty one are
    the same), and the two indexes are built (a later element wins on a
    repeated key). *)
Definition load (tracks : list Track.t) (users : list User.t)
    (playlists : option (list Playlist.t)) : state :=
  State tracks
        (foldl (fun m t => <[Track.id t := t]> m) ∅ tracks)
        users
        (foldl (fun m u => <[PyStr.lower (User.email u) := u]> m) ∅ users)
        (default [] playlists)
        users
        (default [] playlists).

(** ** Outcomes and the handler monad *)

Inductive exn :=
| HTTPException (status_code : Z) (detail : string)
| ValueError
| LibraryError.

Inductive res (A : Type) :=
| Ok (a : A)
| Raise (e : exn).
Arguments Ok {A} a.
Arguments Raise {A} e.

Definition M (A : Type) : Type := state -> res A * state.

#[global] Instance M_ret : MRet M := fun A a st => (Ok a, st).

#[global] Instance M_bind : MBind M := fun A B f m st =>
  match m st with
  | (Ok a, st') => f a st'
  | (Raise e, st') => (Raise e, st')
  end.

Definition raise {A} (e : exn) : M A := fun st => (Raise e, st).
Definition get_state : M state := fun st => (Ok st, st).
Definition modify (f : state -> state) : M unit := fun st => (Ok tt, f st).

(** [max(xs, default=d)] *)
Definition py_max (xs : list Z) (d : Z) : Z :=
  match xs with
  | [] => d
  | x :: r => foldl Z.max x r
  end.

(** ** File persistence and id allocation *)

Definition save_users_to_file : M unit :=
  modify (fun st =>
    State (RAW_TRACKS st) (TRACK_BY_ID st) (RAW_USERS st) (USERS_BY_EMAIL st)
          (RAW_PLAYLISTS st) (RAW_USERS st) (PLAYLIST_DATA_FILE st)).

Definition save_playlists_to_file : M unit :=
  modify (fun st =>
    State (RAW_TRACKS st) (TRACK_BY_ID st) (RAW_USERS st) (USERS_BY_EMAIL st)
          (RAW_PLAYLISTS st) (USER_DATA_FILE st) (RAW_PLAYLISTS st)).

Definition next_user_id (st : state) : Z :=
  py_max (User.id <$> RAW_USERS st) 0 + 1.

Definition next_playlist_id (st : state) : Z :=
  py_max (Playlist.id <$> RAW_PLAYLISTS st) 0 + 1.

Definition to_public_user (user : User.t) : PublicUser.t :=
  PublicUser.mk (User.id user) (User.email user)
                (default EmptyString (User.name user)) (default "user" (User.role user)).

(** ** What lies outside the repository

    jose: [jwt.encode(claims, key, algorithm=ALGORITHM)], and
    [jwt.decode(token, key, algorithms=[ALGORITHM])] read at a given time,
    where [None] stands for [JWTError]. A cookie is [None] when it is
    absent or empty, the two values [not access_token] accepts.

    passlib: [pwd_context.hash] with the salt it draws, and
    [pwd_context.verify]; [None] stands for an exception of the library.

    Python: [bytes.decode("utf-8", errors="ignore")].

    The process environment: [SECRET_KEY], [ACCESS_TOKEN_EXPIRE_MINUTES]. *)

Class Environment := mkEnvironment
  { token : Type;
    jwt_encode : claims -> string -> token;
    jwt_decode : token -> string -> Z -> option claims;
    pwd_hash : string -> string -> option string;
    pwd_verify : string -> string -> option bool;
    decode_utf8_ignore : list Byte.byte -> string;
    SECRET_KEY : string;
    ACCESS_TOKEN_EXPIRE_MINUTES : Z }.

(** What the theorems on sessions and on login ask of the two libraries:
    a token decodes to the claims it was made from, under the same key and
    strictly before its expiry; the hash of a non-empty password verifies
    against that password. *)
Definition jose_round_trip (E : Environment) : Prop :=
  forall c key now,
    (forall e, exp c = Some e -> now < e) ->
    jwt_decode (jwt_encode c key) key now = Some c.

Definition passlib_round_trip (E : Environment) : Prop :=
  forall salt password,
    password <> EmptyString ->
    exists hashed,
      pwd_hash salt password = Some hashed /\ pwd_verify password hashed = Some true.

(** A symbolic environment, to run the handlers on concrete requests: a
    token is its payload paired with the key that signed it, a hash is the
    password behind a marker, a byte sequence keeps its ASCII bytes. *)
Module Symbolic.

Definition encode (c : claims) (key : string) : string * claims := (key, c).

Definition decode (t : string * claims) (key : string) (now : Z) : option claims :=
  if String.eqb (fst t) key then
    match exp (snd t) with
    | Some e => if e <? now then None else Some (snd t)
    | None => Some (snd t)
    end
  else None.

Definition hash (salt password : string) : option string :=
  Some ("$sym$" +:+ password).

Definition verify (password hashed : string) : option bool :=
  Some (String.eqb hashed ("$sym$" +:+ password)).

Definition ascii_only (b : list Byte.byte) : string :=
  string_of_list_ascii
    (ascii_of_byte <$> filter (fun x => (Byte.to_nat x < 128)%nat) b).

Definition env (key : string) (minutes : Z) : Environment :=
  mkEnvironment (string * claims) encode decode hash verify ascii_only key minutes.

End Symbolic.

(** ** The handlers *)

Section Backend.

Context {E : Environment}.

Definition _ensure_str (p : text_arg) : string :=
  match p with
  | PBytes b => decode_utf8_ignore b
  | PStr s => s
  end.

Definition lift_library {A} (o : option A) : M A :=
  match o with
  | Some a => mret a
  | None => raise LibraryError
  end.

Definition hash_password (salt : string) (password : text_arg) : M string :=
  lift_library (pwd_hash salt (_ensure_str password)).

Definition verify_password (plain_password hashed_password : text_arg) : M bool :=
  lift_library (pwd_verify (_ensure_str plain_password) (_ensure_str hashed_password)).

(** [expires_delta or timedelta(minutes=ACCESS_TOKEN_EXPIRE_MINUTES)], in
    seconds: a zero delta is falsy. *)
Definition delta_or_default (expires_delta : option Z) : Z :=
  match expires_delta with
  | Some d => if d =? 0 then ACCESS_TOKEN_EXPIRE_MINUTES * 60 else d
  | None => ACCESS_TOKEN_EXPIRE_MINUTES * 60
  end.

Definition create_access_token (data : claims) (expires_delta : option Z)
    (now : Z) : token :=
  let expire := now + delta_or_default expires_delta in
  jwt_encode (Claims (sub data) (Some expire)) SECRET_KEY.

(** The loop of [get_current_user]: both conversions are evaluated at
    every element. *)
Fixpoint find_user (uid : string) (users : list User.t) : res User.t :=
  match users with
  | [] => Raise (HTTPException 401 "User not found")
  | u :: rest =>
      match PyStr.int_of_str uid with
      | None => Raise ValueError
      | Some n => if User.id u =? n then Ok u else find_user uid rest
      end
  end.

Definition get_current_user (access_token : option token) (now : Z) : M User.t :=
  match access_token with
  | None => raise (HTTPException 401 "Not authenticated")
  | Some tok =>
      match jwt_decode tok SECRET_KEY now with
      | None => raise (HTTPException 401 "Invalid or expired token")
      | Some payload =>
          match sub payload with
          | None => raise (HTTPException 401 "Invalid token payload")
          | Some uid => fun st => (find_user uid (RAW_USERS st), st)
          end
      end
  end.

(** [body.email.lower().strip()] *)
Definition normalize_email (e : string) : string := PyStr.strip (PyStr.lower e).

(** [body.name or email.split("@")[0]] *)
Definition name_or_local_part (name : option string) (email : string) : string :=
  match name with
  | Some (String c r) => String c r
  | _ => PyStr.split_head "@" email
  end.

(** The reply of [signup] and [login]: the body, and the same token set as
    the [access_token] cookie. *)
Record LoginOut := mkLoginOut
  { access_token : token; token_type : string; user : PublicUser.t }.

Definition signup (body : SignupIn.t) (salt : string) (now : Z) : M LoginOut :=
  let email := normalize_email (SignupIn.email body) in
  st ← get_state;
  if bool_decide (is_Some (USERS_BY_EMAIL st !! email)) then
    raise (HTTPException 400 "Email already registered")
  else if Z.of_nat (String.length (SignupIn.password body)) <? 6 then
    raise (HTTPException 400 "Password must be at least 6 characters")
  else
    let new_id := next_user_id st in
    hashed ← hash_password salt (PStr (SignupIn.password body));
    let new_user :=
      User.mk new_id email (Some hashed)
              (Some (name_or_local_part (SignupIn.name body) email))
              (Some "user") in
    modify (fun st => set_users (RAW_USERS st ++ [new_user])
                                (<[email := new_user]> (USERS_BY_EMAIL st)) st);;
    save_users_to_file;;
    let tok := create_access_token
                 (Claims (Some (PyStr.str_of_int (User.id new_user))) None) None now in
    mret (mkLoginOut tok "bearer" (to_public_user new_user)).

Definition login (body : LoginIn.t) (now : Z) : M LoginOut :=
  let email := normalize_email (LoginIn.email body) in
  st ← get_state;
  match USERS_BY_EMAIL st !! email with
  | None => raise (HTTPException 401 "Invalid email or password")
  | Some user =>
      ok ← verify_password (PStr (LoginIn.password body))
                           (PStr (default EmptyString (User.password user)));
      if negb ok then raise (HTTPException 401 "Invalid email or password")
      else
        let tok := create_access_token
                     (Claims (Some (PyStr.str_of_int (User.id user))) None) None now in
        mret (mkLoginOut tok "bearer" (to_public_user user))
  end.

Definition me (current : User.t) : PublicUser.t := to_public_user current.

(** *** Tracks *)

(** [base] is [str(request.base_url)]. *)
Definition absolute_audio_url (base filename : string) : string :=
  PyStr.rstrip_slash base +:+ "/audio/" +:+ filename.

Definition serialize_track (base : string) (t : Track.t) : Track.out :=
  Track.mk_out (Track.id t) (Track.title t) (Track.artist t)
               (absolute_audio_url base (Track.preview_file t)).

Definition list_tracks (base : string) : M (list Track.out) :=
  st ← get_state; mret (serialize_track base <$> RAW_TRACKS st).

(** *** Playlists *)

Definition validate_track_ids (track_ids : list Z) : M unit :=
  st ← get_state;
  let bad := filter (fun tid => tid ∉ dom (TRACK_BY_ID st)) track_ids in
  match bad with
  | [] => mret tt
  | _ => raise (HTTPException 400 ("Unknown track ids: " +:+ PyStr.str_of_int_list bad))
  end.

Definition populate_playlist (base : string) (pl : Playlist.t) : M PlaylistOut.t :=
  st ← get_state;
  let tracks_full :=
    omap (fun tid => serialize_track base <$> TRACK_BY_ID st !! tid) (Playlist.tracks pl) in
  mret (PlaylistOut.mk (Playlist.id pl) (Playlist.user_id pl) (Playlist.name pl)
          tracks_full (Playlist.created_at pl) (Playlist.updated_at pl)).

(** The first element with the given id, and its position: the handlers
    write through the element they were handed, so the position is what
    identifies it. *)
Fixpoint find_playlist (pid : Z) (ps : list Playlist.t) : option (nat * Playlist.t) :=
  match ps with
  | [] => None
  | p :: rest =>
      if Playlist.id p =? pid then Some (O, p)
      else prod_map S id <$> find_playlist pid rest
  end.

Definition get_playlist_or_404 (pid : Z) : M (nat * Playlist.t) :=
  st ← get_state;
  match find_playlist pid (RAW_PLAYLISTS st) with
  | Some r => mret r
  | None => raise (HTTPException 404 "Playlist not found")
  end.

Definition assert_owner (playlist : Playlist.t) (user : User.t) : M unit :=
  if negb (Playlist.user_id playlist =? User.id user)
  then raise (HTTPException 403 "Forbidden")
  else mret tt.

(** An item assignment [pl[key] = v] on the element at position [i]. *)
Definition set_item (i : nat) (pl : Playlist.t) : M Playlist.t :=
  modify (fun st => set_playlists (<[i := pl]> (RAW_PLAYLISTS st)) st);;
  mret pl.

Definition list_playlists (base : string) (current : User.t) : M (list PlaylistOut.t) :=
  st ← get_state;
  let own := filter (fun p => Playlist.user_id p = User.id current) (RAW_PLAYLISTS st) in
  mapM (populate_playlist base) own.

Definition get_playlist (pid : Z) (base : string) (current : User.t) : M PlaylistOut.t :=
  '(_, pl) ← get_playlist_or_404 pid;
  assert_owner pl current;;
  populate_playlist base pl.

Definition create_playlist (body : PlaylistIn.t) (base : string) (current : User.t)
    (now : string) : M PlaylistOut.t :=
  validate_track_ids (PlaylistIn.tracks body);;
  st ← get_state;
  let new_pl :=
    Playlist.mk (next_playlist_id st) (User.id current)
                (PyStr.strip (PlaylistIn.name body)) (PlaylistIn.tracks body)
                (Some now) (Some now) in
  modify (fun st => set_playlists (RAW_PLAYLISTS st ++ [new_pl]) st);;
  save_playlists_to_file;;
  populate_playlist base new_pl.

Definition update_playlist (pid : Z) (body : PlaylistUpdate.t) (base : string)
    (current : User.t) (now : string) : M PlaylistOut.t :=
  '(i, pl) ← get_playlist_or_404 pid;
  assert_owner pl current;;
  pl ← match PlaylistUpdate.name body with
       | Some n => set_item i (Playlist.set_name (PyStr.strip n) pl)
       | None => mret pl
       end;
  pl ← match PlaylistUpdate.tracks body with
       | Some ts => validate_track_ids ts;; set_item i (Playlist.set_tracks ts pl)
       | None => mret pl
       end;
  pl ← set_item i (Playlist.set_updated_at now pl);
  save_playlists_to_file;;
  populate_playlist base pl.

(** The loop of [delete_playlist]: pop the first element with the id. *)
Fixpoint pop_first (pid : Z) (ps : list Playlist.t) : list Playlist.t :=
  match ps with
  | [] => []
  | p :: rest => if Playlist.id p =? pid then rest else p :: pop_first pid rest
  end.

Definition delete_playlist (pid : Z) (current : User.t) : M unit :=
  '(_, pl) ← get_playlist_or_404 pid;
  assert_owner pl current;;
  modify (fun st => set_playlists (pop_first pid (RAW_PLAYLISTS st)) st);;
  save_playlists_to_file.

(** ** Sequences of playlist requests *)

Inductive request :=
| Create (body : PlaylistIn.t) (current : User.t) (now : string)
| Update (pid : Z) (body : PlaylistUpdate.t) (current : User.t) (now : string)
| Delete (pid : Z) (current : User.t).

(** One request: the state it leaves and, for a create that succeeded, the
    ids stored when it was made and the id it assigned. *)
Definition serve (base : string) (r : request) (st : state)
    : state * option (list Z * Z) :=
  match r with
  | Create body current now =>
      match create_playlist body base current now st with
      | (Ok out, st') => (st', Some (Playlist.id <$> RAW_PLAYLISTS st, PlaylistOut.id out))
      | (Raise _, st') => (st', None)
      end
  | Update pid body current now => (snd (update_playlist pid body base current now st), None)
  | Delete pid current => (snd (delete_playlist pid current st), None)
  end.

Fixpoint serve_all (base : string) (rs : list request) (st : state)
    : state * list (list Z * Z) :=
  match rs with
  | [] => (st, [])
  | r :: rest =>
      let '(st1, ev) := serve base r st in
      let '(st2, evs) := serve_all base rest st1 in
      (st2, from_option (fun e => [e]) [] ev ++ evs)
  end.

(** The ids assigned by the creates of a run, oldest first. *)
Definition assigned_ids (base : string) (rs : list request) (st : state) : list Z :=
  snd <$> snd (serve_all base rs st).

End Backend.

(** ** Notions used in the statements *)

(** The state once [RAW_PLAYLISTS] has become [ps] and has been written to
    the playlist file. *)
Definition saved (ps : list Playlist.t) (st : state) : state :=
  State (RAW_TRACKS st) (TRACK_BY_ID st) (RAW_USERS st) (USERS_BY_EMAIL st)
        ps (USER_DATA_FILE st) ps.

(** The three single-playlist handlers raise [e] and leave the state alone. *)
Definition refused (e : exn) (pid : Z) (u : User.t) (st : state) : Prop :=
  (forall base, get_playlist pid base u st = (Raise e, st))
  /\ (forall body base now, update_playlist pid body base u now st = (Raise e, st))
  /\ delete_playlist pid u st = (Raise e, st).

(** A text that [strip] leaves alone. *)
Definition trimmed (s : string) : Prop := PyStr.strip s = s.

(** The name a request supplies, if any. *)
Definition supplied_name (r : request) : option string :=
  match r with
  | Create body _ _ => Some (PlaylistIn.name body)
  | Update _ body _ _ => PlaylistUpdate.name body
  | Delete _ _ => None
  end.

(** ** Sample data *)

Module Demo.

Definition env : Environment := Symbolic.env "k" 60.

(** [str(request.base_url)] of the sample requests. *)
Definition base : string := "http://h/".

Definition song : Track.t := Track.mk 1 "Song" "Ann" "a.mp3".

Definition alice : User.t :=
  User.mk 1 "alice@x.com" (Some "$sym$secret1") (Some "alice") (Some "user").

Definition bob : User.t :=
  User.mk 2 "bob@x.com" (Some "$sym$hunter22") (Some "bob") (Some "user").

Definition mix : Playlist.t := Playlist.mk 1 1 "Mix" [1] (Some "T0") (Some "T0").

(** Nothing on disk but the catalog. *)
Definition fresh : state := load [song] [] None.

(** Two users, no playlist. *)
Definition st0 : state := load [song] [alice; bob] None.

(** Two users, and [mix] owned by alice. *)
Definition st1 : state := load [song] [alice; bob] (Some [mix]).

(** Two creates, the second playlist deleted, one more create. *)
Definition churn : list request :=
  [ Create (PlaylistIn.mk "a" []) alice "T1";
    Create (PlaylistIn.mk "b" [1]) alice "T2";
    Delete 2 alice;
    Create (PlaylistIn.mk "c" []) bob "T3" ].

(** A token with a good signature and expiry whose subject is no number. *)
Definition odd_token : string * claims := ("k", Claims (Some "abc") (Some 100)).

End Demo.

(** ** The remaining handlers *)

(** [sub in s] for two texts. *)
Fixpoint contains (sub s : string) : bool :=
  String.prefix sub s
  || match s with
     | EmptyString => false
     | String _ rest => contains sub rest
     end.

Definition search_tracks (q base : string) : M (list Track.out) :=
  st ← get_state;
  let ql := PyStr.lower q in
  let filtered :=
    List.filter (fun t => contains ql (PyStr.lower (Track.title t))
                          || contains ql (PyStr.lower (Track.artist t)))
                (RAW_TRACKS st) in
  mret (serialize_track base <$> filtered).

Section Routes.

Context {E : Environment}.

(** A parameter [current=Depends(get_current_user)]: the session is
    resolved from the cookie first, and the handler runs on the user it
    yields. *)
Definition depends_current_user {A} (access_token : option token) (now : Z)
    (handler : User.t -> M A) : M A :=
  current ← get_current_user access_token now;
  handler current.

(** The protected routes, as their decorators declare them. [now] is the
    clock of the session check, [stamp] the time text a write records. *)
Definition GET_auth_me (cookie : option token) (now : Z) : M PublicUser.t :=
  depends_current_user cookie now (fun current => mret (me current)).

Definition GET_playlists (cookie : option token) (now : Z) (base : string)
    : M (list PlaylistOut.t) :=
  depends_current_user cookie now (list_playlists base).

Definition GET_playlist (cookie : option token) (now : Z) (pid : Z) (base : string)
    : M PlaylistOut.t :=
  depends_current_user cookie now (get_playlist pid base).

Definition POST_playlists (cookie : option token) (now : Z) (body : PlaylistIn.t)
    (base stamp : string) : M PlaylistOut.t :=
  depends_current_user cookie now (fun current => create_playlist body base current stamp).

Definition PUT_playlist (cookie : option token) (now : Z) (pid : Z)
    (body : PlaylistUpdate.t) (base stamp : string) : M PlaylistOut.t :=
  depends_current_user cookie now
    (fun current => update_playlist pid body base current stamp).

Definition DELETE_playlist (cookie : option token) (now : Z) (pid : Z) : M unit :=
  depends_current_user cookie now (delete_playlist pid).

End Routes.

(** ** Further notions used in the statements *)

(** jose refuses a token of its own once the expiry has passed. *)
Definition jose_rejects_expired (E : Environment) : Prop :=
  forall c key now e,
    exp c = Some e -> e < now -> jwt_decode (jwt_encode c key) key now = None.

(** Every entry of the track index is filed under the id of its track. *)
Definition tracks_indexed (st : state) : Prop :=
  forall i t, TRACK_BY_ID st !! i = Some t -> Track.id t = i.

(** Every entry of the e-mail index is a user of the repository. *)
Definition users_indexed (st : state) : Prop :=
  forall k u, USERS_BY_EMAIL st !! k = Some u -> u ∈ RAW_USERS st.

(** The playlist file holds what the memory holds. *)
Definition playlists_in_sync (st : state) : Prop :=
  PLAYLIST_DATA_FILE st = RAW_PLAYLISTS st.

(** An outcome that is an [HTTPException] with status 401. *)
Definition unauthorized {A} (r : res A) : Prop :=
  exists detail, r = Raise (HTTPException 401 detail).

(** * Properties *)

(** ** Text primitives *)

Example lower_mixed : PyStr.lower "Bob@X.COM" = "bob@x.com".
Proof. reflexivity. Qed.

Example strip_blanks : PyStr.strip "  My Mix  " = "My Mix".
Proof. reflexivity. Qed.

Example int_of_str_plain : PyStr.int_of_str " -1_000 " = Some (-1000).
Proof. reflexivity. Qed.

Example int_of_str_bad : PyStr.int_of_str "abc" = None.
Proof. reflexivity. Qed.

Example int_of_str_bad_underscore : PyStr.int_of_str "1__0" = None.
Proof. reflexivity. Qed.

Example str_of_int_list_two : PyStr.str_of_int_list [2; 99] = "[2, 99]".
Proof. reflexivity. Qed.

Section StripFacts.
Variable drop : ascii -> bool.

Lemma lstrip_by_idem s :
  PyStr.lstrip_by drop (PyStr.lstrip_by drop s) = PyStr.lstrip_by drop s.
Proof.
  induction s as [|c r IH]; simpl; [reflexivity|].
  destruct (drop c) eqn:E; [exact IH|]. simpl. now rewrite E.
Qed.

Lemma rstrip_by_cons_keep c r :
  drop c = false ->
  PyStr.rstrip_by drop (String c r) = String c (PyStr.rstrip_by drop r).
Proof.
  intros E. simpl. destruct (PyStr.rstrip_by drop r); [now rewrite E|reflexivity].
Qed.

Lemma rstrip_by_cons_drop c r :
  drop c = true ->
  PyStr.rstrip_by drop (String c r) =
  match PyStr.rstrip_by drop r with
  | EmptyString => EmptyString
  | String d r' => String c (String d r')
  end.
Proof.
  intros E. simpl. destruct (PyStr.rstrip_by drop r); [now rewrite E|reflexivity].
Qed.

Lemma rstrip_lstrip_comm s :
  PyStr.rstrip_by drop (PyStr.lstrip_by drop s)
  = PyStr.lstrip_by drop (PyStr.rstrip_by drop s).
Proof.
  induction s as [|c r IH]; [reflexivity|].
  destruct (drop c) eqn:E.
  - rewrite (rstrip_by_cons_drop c r E). simpl PyStr.lstrip_by at 1. rewrite E, IH.
    destruct (PyStr.rstrip_by drop r) as [|d r'] eqn:R; [reflexivity|].
    simpl. now rewrite E.
  - rewrite (rstrip_by_cons_keep c r E).
    simpl PyStr.lstrip_by. rewrite E.
    now rewrite (rstrip_by_cons_keep c r E).
Qed.

Lemma rstrip_by_idem s :
  PyStr.rstrip_by drop (PyStr.rstrip_by drop s) = PyStr.rstrip_by drop s.
Proof.
  induction s as [|c r IH]; [reflexivity|].
  destruct (drop c) eqn:E.
  - rewrite (rstrip_by_cons_drop c r E).
    destruct (PyStr.rstrip_by drop r) as [|d r'] eqn:R; [reflexivity|].
    rewrite (rstrip_by_cons_drop c _ E). now rewrite IH.
  - rewrite !(rstrip_by_cons_keep c _ E). now rewrite IH.
Qed.

Lemma strip_by_idem s :
  PyStr.strip_by drop (PyStr.strip_by drop s) = PyStr.strip_by drop s.
Proof.
  unfold PyStr.strip_by.
  now rewrite rstrip_lstrip_comm, lstrip_by_idem, rstrip_by_idem.
Qed.

Lemma strip_by_free s : PyStr.free_of drop s -> PyStr.strip_by drop s = s.
Proof.
  intros H. unfold PyStr.strip_by.
  assert (R : PyStr.rstrip_by drop s = s).
  { induction s as [|c r IH]; [reflexivity|]. destruct H as [E H].
    rewrite (rstrip_by_cons_keep c r E). now rewrite IH. }
  rewrite R. destruct s as [|c r]; [reflexivity|]. simpl. now rewrite (proj1 H).
Qed.

End StripFacts.

Lemma strip_idem s : PyStr.strip (PyStr.strip s) = PyStr.strip s.
Proof. apply strip_by_idem. Qed.

(** [int(str(n)) == n] *)

Lemma string_of_uint_digits d :
  PyStr.free_of PyStr.not_digit (NilEmpty.string_of_uint d).
Proof. induction d; simpl; auto. Qed.

Lemma digit_not_int_space c : PyStr.not_digit c = false -> PyStr.is_int_space c = false.
Proof. destruct c as [[] [] [] [] [] [] [] []]; vm_compute; congruence. Qed.

Lemma digits_free_of_int_space s :
  PyStr.free_of PyStr.not_digit s -> PyStr.free_of PyStr.is_int_space s.
Proof.
  induction s as [|c r IH]; simpl; [trivial|].
  intros [E H]. split; [now apply digit_not_int_space|now apply IH].
Qed.

Lemma literal_digits_all b s :
  PyStr.free_of PyStr.not_digit s -> (b = true \/ s <> EmptyString) ->
  PyStr.literal_digits b s = Some s.
Proof.
  revert b. induction s as [|c r IH]; intros b H Hb; simpl.
  - destruct Hb as [->|Hb]; [reflexivity|congruence].
  - destruct H as [E H]. unfold PyStr.not_digit in E. apply negb_false_iff in E.
    rewrite E. rewrite (IH true H); [reflexivity|now left].
Qed.

Lemma unsigned_literal_uint d :
  d <> Decimal.Nil ->
  PyStr.unsigned_literal (NilEmpty.string_of_uint d) = Some (Z.of_uint d).
Proof.
  intros Hd. unfold PyStr.unsigned_literal.
  rewrite literal_digits_all.
  - simpl. now rewrite NilEmpty.usu.
  - apply string_of_uint_digits.
  - right. destruct d; simpl; congruence.
Qed.

Lemma int_of_str_digits s :
  PyStr.free_of PyStr.not_digit s -> PyStr.int_of_str s = PyStr.unsigned_literal s.
Proof.
  intros H. unfold PyStr.int_of_str.
  rewrite strip_by_free by now apply digits_free_of_int_space.
  destruct s as [|c r]; [reflexivity|].
  destruct H as [E _].
  destruct c as [[] [] [] [] [] [] [] []]; try reflexivity; vm_compute in E; congruence.
Qed.

Lemma int_of_str_minus s :
  PyStr.free_of PyStr.not_digit s ->
  PyStr.int_of_str (String "-" s) = Z.opp <$> PyStr.unsigned_literal s.
Proof.
  intros H. unfold PyStr.int_of_str.
  rewrite strip_by_free; [reflexivity|].
  split; [reflexivity|now apply digits_free_of_int_space].
Qed.

Lemma int_of_str_of_int n : PyStr.int_of_str (PyStr.str_of_int n) = Some n.
Proof.
  unfold PyStr.str_of_int. destruct n as [|p|p].
  - reflexivity.
  - simpl Z.to_int. unfold NilZero.string_of_int, NilZero.string_of_uint.
    pose proof (Unsigned.to_uint_nonnil p) as Hp.
    destruct (Pos.to_uint p) eqn:E; try congruence;
      rewrite <- E; rewrite int_of_str_digits by apply string_of_uint_digits;
      rewrite unsigned_literal_uint by (rewrite E; congruence);
      f_equal; exact (DecimalZ.of_to (Z.pos p)).
  - simpl Z.to_int. unfold NilZero.string_of_int, NilZero.string_of_uint.
    pose proof (Unsigned.to_uint_nonnil p) as Hp.
    destruct (Pos.to_uint p) eqn:E; try congruence;
      rewrite <- E; rewrite int_of_str_minus by apply string_of_uint_digits;
      rewrite unsigned_literal_uint by (rewrite E; congruence);
      simpl; f_equal; exact (DecimalZ.of_to (Z.neg p)).
Qed.

(** ** Playlist handlers, equationally *)

Lemma find_playlist_Some pid ps i p :
  find_playlist pid ps = Some (i, p) -> ps !! i = Some p /\ Playlist.id p = pid.
Proof.
  revert i. induction ps as [|q rest IH]; intros i H; simpl in H; [discriminate|].
  destruct (Playlist.id q =? pid) eqn:Eq.
  - injection H as <- <-. split; [reflexivity|]. now apply Z.eqb_eq.
  - destruct (find_playlist pid rest) as [[j r]|]; [|discriminate].
    injection H as <- <-. now apply IH.
Qed.

Lemma find_playlist_None pid ps :
  find_playlist pid ps = None <-> (forall p, p ∈ ps -> Playlist.id p <> pid).
Proof.
  induction ps as [|q rest IH]; simpl.
  - split; [intros _ p Hp; inversion Hp|reflexivity].
  - destruct (Playlist.id q =? pid) eqn:Eq.
    + split; [discriminate|]. intros H. exfalso.
      apply (H q); [left|]. now apply Z.eqb_eq.
    + apply Z.eqb_neq in Eq.
      destruct (find_playlist pid rest) as [[j r]|] eqn:F; simpl.
      * split; [discriminate|]. intros H. exfalso.
        destruct IH as [_ IH]. discriminate IH. intros p Hp. apply H. now right.
      * split; [|reflexivity]. intros _ p Hp.
        apply elem_of_cons in Hp as [->|Hp]; [exact Eq|]. now apply IH.
Qed.

Lemma find_playlist_first ps p :
  NoDup (Playlist.id <$> ps) -> p ∈ ps ->
  exists i, find_playlist (Playlist.id p) ps = Some (i, p).
Proof.
  induction ps as [|q rest IH]; intros ND Hp; [inversion Hp|].
  rewrite fmap_cons in ND. apply NoDup_cons in ND as [Hq ND]. simpl.
  apply elem_of_cons in Hp as [->|Hp].
  - rewrite Z.eqb_refl. now exists O.
  - destruct (Playlist.id q =? Playlist.id p) eqn:Eq.
    + apply Z.eqb_eq in Eq. exfalso. apply Hq. rewrite Eq.
      now apply list_elem_of_fmap_2.
    + destruct (IH ND Hp) as [i ->]. now exists (S i).
Qed.

Lemma set_playlists_same st : set_playlists (RAW_PLAYLISTS st) st = st.
Proof. now destruct st. Qed.

Ltac run := unfold mbind, M_bind, mret, M_ret, raise, get_state, modify; simpl.

Lemma get_playlist_or_404_run pid st :
  get_playlist_or_404 pid st =
  match find_playlist pid (RAW_PLAYLISTS st) with
  | Some r => (Ok r, st)
  | None => (Raise (HTTPException 404 "Playlist not found"), st)
  end.
Proof. unfold get_playlist_or_404. run. now destruct (find_playlist _ _). Qed.

Lemma assert_owner_run pl u st :
  assert_owner pl u st =
  if Playlist.user_id pl =? User.id u then (Ok tt, st)
  else (Raise (HTTPException 403 "Forbidden"), st).
Proof. unfold assert_owner. now destruct (_ =? _). Qed.

Lemma validate_track_ids_run ts st :
  validate_track_ids ts st =
  match filter (fun tid => tid ∉ dom (TRACK_BY_ID st)) ts with
  | [] => (Ok tt, st)
  | bad => (Raise (HTTPException 400 ("Unknown track ids: " +:+ PyStr.str_of_int_list bad)), st)
  end.
Proof. unfold validate_track_ids. run. now destruct (filter _ _). Qed.

Lemma bind_run {A B} (m : M A) (f : A -> M B) st :
  (m ≫= f) st =
  match m st with
  | (Ok a, st') => f a st'
  | (Raise e, st') => (Raise e, st')
  end.
Proof. reflexivity. Qed.

Lemma update_playlist_run pid body base u now st :
  update_playlist pid body base u now st =
  match find_playlist pid (RAW_PLAYLISTS st) with
  | None => (Raise (HTTPException 404 "Playlist not found"), st)
  | Some (i, pl) =>
      if Playlist.user_id pl =? User.id u then
        let pl1 := from_option (fun n => Playlist.set_name (PyStr.strip n) pl) pl
                     (PlaylistUpdate.name body) in
        let st1 := match PlaylistUpdate.name body with
                   | Some _ => set_playlists (<[i := pl1]> (RAW_PLAYLISTS st)) st
                   | None => st
                   end in
        let finish pl2 :=
          let pl3 := Playlist.set_updated_at now pl2 in
          populate_playlist base pl3 (saved (<[i := pl3]> (RAW_PLAYLISTS st)) st) in
        match PlaylistUpdate.tracks body with
        | Some ts =>
            match filter (fun tid => tid ∉ dom (TRACK_BY_ID st)) ts with
            | [] => finish (Playlist.set_tracks ts pl1)
            | bad => (Raise (HTTPException 400
                        ("Unknown track ids: " +:+ PyStr.str_of_int_list bad)), st1)
            end
        | None => finish pl1
        end
      else (Raise (HTTPException 403 "Forbidden"), st)
  end.
Proof.
  unfold update_playlist. rewrite bind_run, get_playlist_or_404_run.
  destruct (find_playlist pid (RAW_PLAYLISTS st)) as [[i pl]|]; [|reflexivity].
  rewrite bind_run, assert_owner_run.
  destruct (Playlist.user_id pl =? User.id u); [|reflexivity].
  destruct body as [[n|] [ts|]]; simpl; rewrite !bind_run; unfold set_item;
    rewrite ?bind_run; simpl; rewrite ?bind_run, ?validate_track_ids_run; simpl.
  - destruct (filter _ ts); [|reflexivity]. run. unfold saved. simpl.
    now rewrite !list_insert_insert_eq.
  - run. unfold saved. simpl. now rewrite !list_insert_insert_eq.
  - destruct (filter _ ts); [|reflexivity]. run. unfold saved. simpl.
    now rewrite !list_insert_insert_eq.
  - run. reflexivity.
Qed.

Lemma populate_playlist_run base pl st :
  exists out, populate_playlist base pl st = (Ok out, st)
    /\ PlaylistOut.id out = Playlist.id pl
    /\ PlaylistOut.user_id out = Playlist.user_id pl
    /\ PlaylistOut.name out = Playlist.name pl
    /\ PlaylistOut.created_at out = Playlist.created_at pl
    /\ PlaylistOut.updated_at out = Playlist.updated_at pl.
Proof. eexists. split; [reflexivity|]. simpl. auto. Qed.

Lemma get_playlist_run pid base u st :
  get_playlist pid base u st =
  match find_playlist pid (RAW_PLAYLISTS st) with
  | None => (Raise (HTTPException 404 "Playlist not found"), st)
  | Some (i, pl) =>
      if Playlist.user_id pl =? User.id u then populate_playlist base pl st
      else (Raise (HTTPException 403 "Forbidden"), st)
  end.
Proof.
  unfold get_playlist. rewrite bind_run, get_playlist_or_404_run.
  destruct (find_playlist pid (RAW_PLAYLISTS st)) as [[i pl]|]; [|reflexivity].
  rewrite bind_run, assert_owner_run.
  now destruct (Playlist.user_id pl =? User.id u).
Qed.

Lemma delete_playlist_run pid u st :
  delete_playlist pid u st =
  match find_playlist pid (RAW_PLAYLISTS st) with
  | None => (Raise (HTTPException 404 "Playlist not found"), st)
  | Some (i, pl) =>
      if Playlist.user_id pl =? User.id u
      then (Ok tt, saved (pop_first pid (RAW_PLAYLISTS st)) st)
      else (Raise (HTTPException 403 "Forbidden"), st)
  end.
Proof.
  unfold delete_playlist. rewrite bind_run, get_playlist_or_404_run.
  destruct (find_playlist pid (RAW_PLAYLISTS st)) as [[i pl]|]; [|reflexivity].
  rewrite bind_run, assert_owner_run.
  now destruct (Playlist.user_id pl =? User.id u).
Qed.

Lemma create_playlist_run body base u now st :
  create_playlist body base u now st =
  match filter (fun tid => tid ∉ dom (TRACK_BY_ID st)) (PlaylistIn.tracks body) with
  | [] =>
      let new_pl :=
        Playlist.mk (next_playlist_id st) (User.id u)
                    (PyStr.strip (PlaylistIn.name body)) (PlaylistIn.tracks body)
                    (Some now) (Some now) in
      populate_playlist base new_pl (saved (RAW_PLAYLISTS st ++ [new_pl]) st)
  | bad => (Raise (HTTPException 400
              ("Unknown track ids: " +:+ PyStr.str_of_int_list bad)), st)
  end.
Proof.
  unfold create_playlist. rewrite bind_run, validate_track_ids_run.
  now destruct (filter _ _).
Qed.

(** ** Ownership *)

(** C2. With playlist ids unique in the store: for a stored playlist and a
    user who is not its owner, get, update and delete on its id raise 403
    Forbidden and leave the state, hence the playlist, as it was; on an id
    that no stored playlist has, the three raise 404 Not Found. *)
Theorem non_owner_is_forbidden st pid u :
  NoDup (Playlist.id <$> RAW_PLAYLISTS st) ->
  (forall p, p ∈ RAW_PLAYLISTS st -> Playlist.id p = pid ->
             User.id u <> Playlist.user_id p ->
             refused (HTTPException 403 "Forbidden") pid u st)
  /\ ((forall p, p ∈ RAW_PLAYLISTS st -> Playlist.id p <> pid) ->
      refused (HTTPException 404 "Playlist not found") pid u st).
Proof.
  intros ND. split.
  - intros p Hp <- Hu.
    destruct (find_playlist_first _ _ ND Hp) as [i F].
    assert (O : (Playlist.user_id p =? User.id u) = false)
      by (apply Z.eqb_neq; congruence).
    repeat split; intros;
      rewrite ?get_playlist_run, ?update_playlist_run, ?delete_playlist_run, F, O;
      reflexivity.
  - intros H. apply find_playlist_None in H.
    repeat split; intros;
      rewrite ?get_playlist_run, ?update_playlist_run, ?delete_playlist_run, H;
      reflexivity.
Qed.

(** ** Updates *)

Lemma fmap_insert_same {A B} (f : A -> B) (l : list A) i x y :
  l !! i = Some x -> f y = f x -> f <$> <[i := y]> l = f <$> l.
Proof.
  intros L Ef. rewrite list_fmap_insert, Ef.
  apply list_insert_id. now rewrite list_lookup_fmap, L.
Qed.

Lemma filter_unknown_nil (m : gmap Z Track.t) ts :
  Forall (fun t => t ∈ dom m) ts -> filter (fun tid => tid ∉ dom m) ts = [].
Proof.
  induction 1 as [|t ts Ht _ IH]; [reflexivity|].
  rewrite filter_cons_False by (intros N; now apply N). exact IH.
Qed.

Lemma filter_unknown_cons (m : gmap Z Track.t) ts t :
  t ∈ ts -> t ∉ dom m -> filter (fun tid => tid ∉ dom m) ts <> [].
Proof.
  intros Ht Hm E.
  assert (H : t ∈ filter (fun tid => tid ∉ dom m) ts) by now apply list_elem_of_filter.
  rewrite E in H. inversion H.
Qed.

(** What an update by the owner leaves behind when a supplied track id is
    not in the catalog: the file is not rewritten, and the stored playlist
    has already taken the new name when one was supplied. *)
Lemma update_unknown_track pid body base u now st i pl ts t :
  find_playlist pid (RAW_PLAYLISTS st) = Some (i, pl) ->
  Playlist.user_id pl = User.id u ->
  PlaylistUpdate.tracks body = Some ts ->
  t ∈ ts -> t ∉ dom (TRACK_BY_ID st) ->
  exists detail,
    update_playlist pid body base u now st =
    (Raise (HTTPException 400 detail),
     match PlaylistUpdate.name body with
     | Some n => set_playlists
                   (<[i := Playlist.set_name (PyStr.strip n) pl]> (RAW_PLAYLISTS st)) st
     | None => st
     end).
Proof.
  intros F O T Ht Hm. apply Z.eqb_eq in O.
  rewrite update_playlist_run, F, O, T. simpl.
  pose proof (filter_unknown_cons _ _ _ Ht Hm) as N.
  destruct (filter _ ts) as [|b bad]; [congruence|].
  eexists. destruct (PlaylistUpdate.name body); reflexivity.
Qed.

(** C1. The owner of playlist 1, stored and persisted under the name Mix,
    renames it to New and sets its tracks to [99], which the catalog does
    not have: the update raises 400, the file still holds Mix, and the
    stored playlist is left with the name New. *)
Theorem update_unknown_track_keeps_new_name :
  let r := update_playlist 1 (PlaylistUpdate.mk (Some "New") (Some [99]))
             Demo.base Demo.alice "T1" Demo.st1 in
  fst r = Raise (HTTPException 400 "Unknown track ids: [99]")
  /\ RAW_PLAYLISTS Demo.st1 = [Demo.mix]
  /\ RAW_PLAYLISTS (snd r) = [Playlist.set_name "New" Demo.mix]
  /\ PLAYLIST_DATA_FILE (snd r) = [Demo.mix].
Proof. vm_compute. repeat split. Qed.

Lemma update_playlist_frame pid body base u now st :
  let st' := snd (update_playlist pid body base u now st) in
  Playlist.id <$> RAW_PLAYLISTS st' = Playlist.id <$> RAW_PLAYLISTS st
  /\ Playlist.user_id <$> RAW_PLAYLISTS st' = Playlist.user_id <$> RAW_PLAYLISTS st
  /\ Playlist.created_at <$> RAW_PLAYLISTS st' = Playlist.created_at <$> RAW_PLAYLISTS st
  /\ (PlaylistUpdate.name body = None ->
      Playlist.name <$> RAW_PLAYLISTS st' = Playlist.name <$> RAW_PLAYLISTS st)
  /\ (PlaylistUpdate.tracks body = None ->
      Playlist.tracks <$> RAW_PLAYLISTS st' = Playlist.tracks <$> RAW_PLAYLISTS st).
Proof.
  rewrite update_playlist_run.
  destruct (find_playlist pid (RAW_PLAYLISTS st)) as [[i pl]|] eqn:F; [|now simpl].
  apply find_playlist_Some in F as [L _].
  destruct (Playlist.user_id pl =? User.id u); [|now simpl].
  destruct body as [[n|] [ts|]]; simpl;
    try destruct (filter _ ts); simpl;
    repeat split; intros; try discriminate; try reflexivity;
    now apply (fmap_insert_same _ _ _ pl).
Qed.

(** C8. An update changes a name or a track list only if the request
    supplies it, and never an id, an owner or a creation time; when the
    owner's update succeeds, the playlist keeps every omitted field, takes
    each supplied one, and gets the time of the call as [updated_at], also
    when the supplied values are the stored ones; the result is written to
    the file and no other playlist is touched. *)
Theorem update_is_partial pid body base u now st :
  (let st' := snd (update_playlist pid body base u now st) in
   Playlist.id <$> RAW_PLAYLISTS st' = Playlist.id <$> RAW_PLAYLISTS st
   /\ Playlist.user_id <$> RAW_PLAYLISTS st' = Playlist.user_id <$> RAW_PLAYLISTS st
   /\ Playlist.created_at <$> RAW_PLAYLISTS st' = Playlist.created_at <$> RAW_PLAYLISTS st
   /\ (PlaylistUpdate.name body = None ->
       Playlist.name <$> RAW_PLAYLISTS st' = Playlist.name <$> RAW_PLAYLISTS st)
   /\ (PlaylistUpdate.tracks body = None ->
       Playlist.tracks <$> RAW_PLAYLISTS st' = Playlist.tracks <$> RAW_PLAYLISTS st))
  /\ (forall i pl,
        find_playlist pid (RAW_PLAYLISTS st) = Some (i, pl) ->
        Playlist.user_id pl = User.id u ->
        (forall ts, PlaylistUpdate.tracks body = Some ts ->
                    Forall (fun t => t ∈ dom (TRACK_BY_ID st)) ts) ->
        let pl' :=
          Playlist.mk (Playlist.id pl) (Playlist.user_id pl)
            (from_option PyStr.strip (Playlist.name pl) (PlaylistUpdate.name body))
            (default (Playlist.tracks pl) (PlaylistUpdate.tracks body))
            (Playlist.created_at pl) (Some now) in
        exists out,
          update_playlist pid body base u now st
          = (Ok out, saved (<[i := pl']> (RAW_PLAYLISTS st)) st)
          /\ PlaylistOut.name out = Playlist.name pl'
          /\ PlaylistOut.updated_at out = Some now).
Proof.
  split; [apply update_playlist_frame|].
  intros i pl F O V. apply Z.eqb_eq in O. rewrite update_playlist_run, F, O.
  destruct body as [[n|] [ts|]]; simpl in *;
    try rewrite (filter_unknown_nil _ _ (V ts eq_refl));
    eexists; (split; [reflexivity|]); split; reflexivity.
Qed.

(** ** Id allocation *)

Lemma foldl_max_bounds r a :
  a <= foldl Z.max a r /\ Forall (fun y => y <= foldl Z.max a r) r.
Proof.
  revert a. induction r as [|y r IH]; intros a; simpl.
  - split; [lia|constructor].
  - destruct (IH (Z.max a y)) as [H1 H2]. split; [lia|].
    constructor; [lia|exact H2].
Qed.

Lemma py_max_bounds xs d : Forall (fun x => x <= py_max xs d) xs.
Proof.
  destruct xs as [|x r]; [constructor|]. simpl.
  destruct (foldl_max_bounds r x) as [H1 H2]. now constructor.
Qed.

Lemma py_max_positive xs : Forall (fun i => 0 < i) xs -> 0 < py_max xs 0 + 1.
Proof.
  intros H. destruct xs as [|x r]; [simpl; lia|].
  pose proof (py_max_bounds (x :: r) 0) as B.
  apply Forall_cons in H as [Hx _]. apply Forall_cons in B as [Bx _]. lia.
Qed.

Lemma next_playlist_id_above st :
  Forall (fun i => i < next_playlist_id st) (Playlist.id <$> RAW_PLAYLISTS st).
Proof.
  unfold next_playlist_id.
  eapply Forall_impl; [apply (py_max_bounds _ 0)|]. simpl. intros; lia.
Qed.

Lemma pop_first_sublist pid ps : pop_first pid ps `sublist_of` ps.
Proof.
  induction ps as [|p rest IH]; simpl; [constructor|].
  destruct (Playlist.id p =? pid).
  - now apply sublist_cons.
  - now apply sublist_skip.
Qed.

Lemma pop_first_elem pid ps p : p ∈ pop_first pid ps -> p ∈ ps.
Proof.
  induction ps as [|q rest IH]; simpl; [trivial|].
  destruct (Playlist.id q =? pid); intros H.
  - now right.
  - apply elem_of_cons in H as [->|H]; [left|right; auto].
Qed.

Lemma create_playlist_cases body base u now st :
  (exists e, create_playlist body base u now st = (Raise e, st))
  \/ (exists out,
        let new_pl :=
          Playlist.mk (next_playlist_id st) (User.id u)
                      (PyStr.strip (PlaylistIn.name body)) (PlaylistIn.tracks body)
                      (Some now) (Some now) in
        create_playlist body base u now st
        = (Ok out, saved (RAW_PLAYLISTS st ++ [new_pl]) st)
        /\ PlaylistOut.id out = next_playlist_id st).
Proof.
  rewrite create_playlist_run. destruct (filter _ _).
  - right. eexists. split; reflexivity.
  - left. now eexists.
Qed.

Lemma delete_playlist_cases pid u st :
  snd (delete_playlist pid u st) = st
  \/ snd (delete_playlist pid u st) = saved (pop_first pid (RAW_PLAYLISTS st)) st.
Proof.
  rewrite delete_playlist_run.
  destruct (find_playlist pid (RAW_PLAYLISTS st)) as [[i pl]|]; [|now left].
  destruct (Playlist.user_id pl =? User.id u); [now right|now left].
Qed.

Lemma serve_ids base r st :
  NoDup (Playlist.id <$> RAW_PLAYLISTS st) ->
  Forall (fun i => 0 < i) (Playlist.id <$> RAW_PLAYLISTS st) ->
  NoDup (Playlist.id <$> RAW_PLAYLISTS (fst (serve base r st)))
  /\ Forall (fun i => 0 < i) (Playlist.id <$> RAW_PLAYLISTS (fst (serve base r st)))
  /\ match snd (serve base r st) with
     | Some (before, new) =>
         new = py_max before 0 + 1 /\ Forall (fun i => i < new) before
     | None => True
     end.
Proof.
  intros ND POS. destruct r as [body u now|pid body u now|pid u]; simpl.
  - destruct (create_playlist_cases body base u now st) as [[e ->]|[out [-> Ho]]]; simpl.
    + auto.
    + rewrite Ho, fmap_app. simpl. repeat split.
      * apply NoDup_app. repeat split; [exact ND| |apply NoDup_singleton].
        intros x Hx Hn. apply list_elem_of_singleton in Hn. subst x.
        pose proof (next_playlist_id_above st) as A.
        rewrite Forall_forall in A. specialize (A _ Hx). lia.
      * apply Forall_app. split; [exact POS|].
        constructor; [|constructor]. now apply py_max_positive.
      * apply next_playlist_id_above.
  - destruct (update_playlist_frame pid body base u now st) as [-> _]. auto.
  - destruct (delete_playlist_cases pid u st) as [->| ->]; [auto|]. simpl.
    assert (S : Playlist.id <$> pop_first pid (RAW_PLAYLISTS st)
                `sublist_of` Playlist.id <$> RAW_PLAYLISTS st)
      by apply fmap_sublist, pop_first_sublist.
    repeat split; [eapply sublist_NoDup; eauto|].
    rewrite Forall_fmap, Forall_forall in POS |- *.
    intros p Hp. apply POS. eapply pop_first_elem, Hp.
Qed.

(** C3, as amended. From a store whose ids are unique and positive, after
    any sequence of create, update and delete requests the stored ids are
    still unique and positive, and every create that succeeded assigned
    (max of the ids stored at that moment, default 0) + 1, an id above all
    of them. (An id handed out before may come back once the playlist that
    held the largest id is gone.) *)
Theorem ids_unique_and_above_stored base rs st :
  NoDup (Playlist.id <$> RAW_PLAYLISTS st) ->
  Forall (fun i => 0 < i) (Playlist.id <$> RAW_PLAYLISTS st) ->
  NoDup (Playlist.id <$> RAW_PLAYLISTS (fst (serve_all base rs st)))
  /\ Forall (fun i => 0 < i) (Playlist.id <$> RAW_PLAYLISTS (fst (serve_all base rs st)))
  /\ Forall (fun ev => snd ev = py_max (fst ev) 0 + 1
                       /\ Forall (fun i => i < snd ev) (fst ev))
            (snd (serve_all base rs st)).
Proof.
  revert st. induction rs as [|r rs IH]; intros st ND POS; simpl.
  - repeat split; auto.
  - destruct (serve_ids base r st ND POS) as (ND1 & POS1 & EV).
    destruct (serve base r st) as [st1 ev]. simpl in *.
    destruct (IH st1 ND1 POS1) as (ND2 & POS2 & EVS).
    destruct (serve_all base rs st1) as [st2 evs]. simpl in *.
    repeat split; auto. apply Forall_app. split; [|exact EVS].
    destruct ev as [[before new]|]; simpl; [|constructor].
    constructor; [exact EV|constructor].
Qed.

(** C3, as stated: the run [Demo.churn] hands out the id 2 twice, the
    second time after the playlist that held it was deleted. *)
Lemma assigned_id_comes_back :
  assigned_ids Demo.base Demo.churn Demo.st0 = [1; 2; 2]
  /\ ~ NoDup (assigned_ids Demo.base Demo.churn Demo.st0).
Proof.
  assert (E : assigned_ids Demo.base Demo.churn Demo.st0 = [1; 2; 2])
    by (vm_compute; reflexivity).
  split; [exact E|]. rewrite E. intros H.
  apply NoDup_cons in H as [_ H]. apply NoDup_cons in H as [N _].
  apply N. left.
Qed.

(** ** Names *)

Lemma elem_of_insert_inv {A} (l : list A) i x y :
  y ∈ <[i := x]> l -> y = x \/ y ∈ l.
Proof.
  revert i. induction l as [|a l IH]; intros i H; [now right|].
  destruct i as [|i]; simpl in H; apply elem_of_cons in H as [->|H].
  - now left.
  - right. now right.
  - right. left.
  - destruct (IH _ H) as [->|H']; [now left|right; now right].
Qed.

Lemma serve_names base r st p :
  p ∈ RAW_PLAYLISTS (fst (serve base r st)) ->
  (exists q, q ∈ RAW_PLAYLISTS st /\ Playlist.name p = Playlist.name q)
  \/ (exists n, supplied_name r = Some n /\ Playlist.name p = PyStr.strip n).
Proof.
  destruct r as [body u now|pid body u now|pid u]; simpl.
  - destruct (create_playlist_cases body base u now st) as [[e ->]|[out [-> _]]]; simpl.
    + intros H. left. eauto.
    + intros H. apply elem_of_app in H as [H|H]; [left; eauto|].
      apply list_elem_of_singleton in H. subst p. right. eauto.
  - rewrite update_playlist_run.
    destruct (find_playlist pid (RAW_PLAYLISTS st)) as [[i pl]|] eqn:F;
      [|simpl; intros H; left; eauto].
    apply find_playlist_Some in F as [L _].
    apply list_elem_of_lookup_2 in L.
    destruct (Playlist.user_id pl =? User.id u); [|simpl; intros H; left; eauto].
    destruct body as [[n|] [ts|]]; simpl;
      try destruct (filter _ ts); simpl; intros H;
      try (apply elem_of_insert_inv in H as [->|H]); simpl; eauto.
  - destruct (delete_playlist_cases pid u st) as [->| ->]; simpl; intros H.
    + left. eauto.
    + left. exists p. split; [eapply pop_first_elem, H|reflexivity].
Qed.

Lemma serve_file base r st :
  PLAYLIST_DATA_FILE (fst (serve base r st)) = PLAYLIST_DATA_FILE st
  \/ PLAYLIST_DATA_FILE (fst (serve base r st)) = RAW_PLAYLISTS (fst (serve base r st)).
Proof.
  destruct r as [body u now|pid body u now|pid u]; simpl.
  - destruct (create_playlist_cases body base u now st) as [[e ->]|[out [-> _]]];
      simpl; auto.
  - rewrite update_playlist_run.
    destruct (find_playlist pid (RAW_PLAYLISTS st)) as [[i pl]|]; [|now left].
    destruct (Playlist.user_id pl =? User.id u); [|now left].
    destruct body as [[n|] [ts|]]; simpl; try destruct (filter _ ts); simpl; auto.
  - destruct (delete_playlist_cases pid u st) as [->| ->]; simpl; auto.
Qed.

Lemma serve_trimmed base r st :
  Forall trimmed (Playlist.name <$> RAW_PLAYLISTS st) ->
  Forall trimmed (Playlist.name <$> PLAYLIST_DATA_FILE st) ->
  Forall trimmed (Playlist.name <$> RAW_PLAYLISTS (fst (serve base r st)))
  /\ Forall trimmed (Playlist.name <$> PLAYLIST_DATA_FILE (fst (serve base r st))).
Proof.
  intros HR HF.
  assert (R : Forall trimmed (Playlist.name <$> RAW_PLAYLISTS (fst (serve base r st)))).
  { rewrite Forall_fmap, Forall_forall in HR |- *. intros p Hp. simpl.
    destruct (serve_names _ _ _ _ Hp) as [(q & Hq & ->)|(n & _ & ->)].
    - now apply HR.
    - apply strip_idem. }
  split; [exact R|]. now destruct (serve_file base r st) as [-> | ->].
Qed.

(** C4, as stated: a create whose name is three blanks succeeds, and the
    playlist it stores and persists has the empty name. *)
Lemma blank_name_is_stored :
  let r := create_playlist (PlaylistIn.mk "   " []) Demo.base Demo.alice "T1" Demo.st0 in
  (exists out, fst r = Ok out)
  /\ exists p, p ∈ RAW_PLAYLISTS (snd r) /\ p ∈ PLAYLIST_DATA_FILE (snd r)
               /\ PyStr.strip (Playlist.name p) = EmptyString.
Proof.
  split; [eexists; vm_compute; reflexivity|].
  exists (Playlist.mk 1 1 EmptyString [] (Some "T1") (Some "T1")).
  vm_compute. repeat split; left.
Qed.

(** C4, as amended. A name that create or update stores is the supplied
    name with the surrounding whitespace stripped: after a request, every
    stored playlist has the name of a playlist stored before or the
    stripped name the request supplied. Hence, from a store and a file
    whose names are stripped, the names stay stripped whatever the
    requests. (Nothing asks the stripped name to be non-empty.) *)
Theorem stored_names_are_stripped base :
  (forall r st p,
     p ∈ RAW_PLAYLISTS (fst (serve base r st)) ->
     (exists q, q ∈ RAW_PLAYLISTS st /\ Playlist.name p = Playlist.name q)
     \/ (exists n, supplied_name r = Some n /\ Playlist.name p = PyStr.strip n))
  /\ (forall rs st,
        Forall trimmed (Playlist.name <$> RAW_PLAYLISTS st) ->
        Forall trimmed (Playlist.name <$> PLAYLIST_DATA_FILE st) ->
        Forall trimmed (Playlist.name <$> RAW_PLAYLISTS (fst (serve_all base rs st)))
        /\ Forall trimmed
             (Playlist.name <$> PLAYLIST_DATA_FILE (fst (serve_all base rs st)))).
Proof.
  split; [apply serve_names|].
  induction rs as [|r rs IH]; intros st HR HF; simpl; [auto|].
  destruct (serve_trimmed base r st HR HF) as [HR1 HF1].
  destruct (serve base r st) as [st1 ev]. simpl in *.
  specialize (IH st1 HR1 HF1).
  destruct (serve_all base rs st1) as [st2 evs]. exact IH.
Qed.

(** ** Sessions and accounts *)

Section Accounts.

Context {E : Environment}.

(** [verify_password] coerces its two arguments and hands them to the
    library: it answers what the library answers and raises when the
    library raises. *)
Lemma verify_password_run p h st :
  verify_password p h st =
  (match pwd_verify (_ensure_str p) (_ensure_str h) with
   | Some b => Ok b
   | None => Raise LibraryError
   end, st).
Proof. unfold verify_password, lift_library. now destruct (pwd_verify _ _). Qed.

Lemma normalize_email_lower e e' :
  PyStr.lower e' = PyStr.lower e -> normalize_email e' = normalize_email e.
Proof. unfold normalize_email. now intros ->. Qed.

Lemma find_user_member uid users u : find_user uid users = Ok u -> u ∈ users.
Proof.
  induction users as [|v rest IH]; simpl; [discriminate|].
  destruct (PyStr.int_of_str uid) as [n|]; [|discriminate].
  destruct (User.id v =? n).
  - intros [= ->]. left.
  - intros H. right. now apply IH.
Qed.

Lemma find_user_of_id users u :
  u ∈ users ->
  exists u', find_user (PyStr.str_of_int (User.id u)) users = Ok u'
             /\ User.id u' = User.id u.
Proof.
  induction users as [|v rest IH]; intros H; [inversion H|].
  simpl. rewrite int_of_str_of_int.
  destruct (User.id v =? User.id u) eqn:Eq.
  - exists v. split; [reflexivity|]. now apply Z.eqb_eq.
  - apply elem_of_cons in H as [->|H]; [|now apply IH].
    rewrite Z.eqb_refl in Eq. discriminate.
Qed.

Lemma NoDup_fmap_eq {A B} (f : A -> B) (l : list A) x y :
  NoDup (f <$> l) -> x ∈ l -> y ∈ l -> f x = f y -> x = y.
Proof.
  induction l as [|a l IH]; intros ND Hx Hy Ef; [inversion Hx|].
  rewrite fmap_cons in ND. apply NoDup_cons in ND as [Na ND].
  apply elem_of_cons in Hx as [->|Hx]; apply elem_of_cons in Hy as [->|Hy].
  - reflexivity.
  - exfalso. apply Na. rewrite Ef. now apply list_elem_of_fmap_2.
  - exfalso. apply Na. rewrite <- Ef. now apply list_elem_of_fmap_2.
  - now apply IH.
Qed.

(** C7. With a jose that round-trips: for a user of the repository, the
    token issued for the user's id, read under the same key strictly
    before its expiry, resolves to a user with that id, the very user when
    the ids of the repository are unique; the state is not touched. *)
Theorem token_round_trip st u delta now now' :
  jose_round_trip E ->
  u ∈ RAW_USERS st ->
  now' < now + delta_or_default delta ->
  exists u',
    get_current_user
      (Some (create_access_token
               (Claims (Some (PyStr.str_of_int (User.id u))) None) delta now))
      now' st
    = (Ok u', st)
    /\ User.id u' = User.id u
    /\ (NoDup (User.id <$> RAW_USERS st) -> u' = u).
Proof.
  intros RT Hu Ht. unfold get_current_user, create_access_token.
  rewrite RT by (simpl; intros e [= <-]; exact Ht). simpl.
  destruct (find_user_of_id _ _ Hu) as (u' & F & Ei).
  exists u'. rewrite F. repeat split; [exact Ei|].
  intros ND. apply find_user_member in F.
  now apply (NoDup_fmap_eq User.id (RAW_USERS st)).
Qed.

(** C9, as amended. For a token that decodes, under the key and at the
    time of the request, to a payload: a missing subject is answered 401;
    a subject that [int] rejects raises an unhandled [ValueError] when the
    repository holds at least one user, and is answered 401 User not found
    when it holds none, since the conversion sits in the loop over the
    users. *)
Theorem subject_that_is_no_number st tok now payload :
  jwt_decode tok SECRET_KEY now = Some payload ->
  (sub payload = None ->
   get_current_user (Some tok) now st
   = (Raise (HTTPException 401 "Invalid token payload"), st))
  /\ (forall s, sub payload = Some s -> PyStr.int_of_str s = None ->
      get_current_user (Some tok) now st
      = (match RAW_USERS st with
         | [] => Raise (HTTPException 401 "User not found")
         | _ :: _ => Raise ValueError
         end, st)).
Proof.
  intros D. unfold get_current_user. rewrite D. split.
  - now intros ->.
  - intros s -> N. destruct (RAW_USERS st) as [|v rest]; simpl; [reflexivity|].
    now rewrite N.
Qed.

(** C10. A signup whose e-mail, up to case, is a key of the index raises
    400 Email already registered whatever the password, so a short
    password is not what gets reported; with a free e-mail and a password
    under 6 characters it raises 400 for the password. Both leave the
    state as it was. *)
Theorem signup_error_precedence st body salt now :
  (forall e0,
     PyStr.lower e0 = PyStr.lower (SignupIn.email body) ->
     is_Some (USERS_BY_EMAIL st !! normalize_email e0) ->
     signup body salt now st
     = (Raise (HTTPException 400 "Email already registered"), st))
  /\ (USERS_BY_EMAIL st !! normalize_email (SignupIn.email body) = None ->
      (String.length (SignupIn.password body) < 6)%nat ->
      signup body salt now st
      = (Raise (HTTPException 400 "Password must be at least 6 characters"), st)).
Proof.
  split.
  - intros e0 Ee H. rewrite (normalize_email_lower _ _ Ee) in H.
    unfold signup. rewrite bind_run. simpl.
    now rewrite bool_decide_eq_true_2.
  - intros H L. unfold signup. rewrite bind_run. simpl.
    rewrite bool_decide_eq_false_2 by (rewrite H; now intros [? ?]).
    destruct (Z.ltb_spec (Z.of_nat (String.length (SignupIn.password body))) 6);
      [reflexivity|lia].
Qed.

(** C6. With a passlib whose hashes verify: a signup with an e-mail whose
    key is free and a password of at least 6 characters succeeds; the new
    user is in the repository and is what the index returns for that
    e-mail in any letter case; a login with the e-mail in any letter case
    and the same password succeeds as that user. *)
Theorem signup_then_login st body salt now :
  passlib_round_trip E ->
  USERS_BY_EMAIL st !! normalize_email (SignupIn.email body) = None ->
  (6 <= String.length (SignupIn.password body))%nat ->
  exists out st' u,
    signup body salt now st = (Ok out, st')
    /\ u ∈ RAW_USERS st'
    /\ User.email u = normalize_email (SignupIn.email body)
    /\ user out = to_public_user u
    /\ forall e', PyStr.lower e' = PyStr.lower (SignupIn.email body) ->
         USERS_BY_EMAIL st' !! normalize_email e' = Some u
         /\ forall now',
              exists out',
                login (LoginIn.mk e' (SignupIn.password body)) now' st' = (Ok out', st')
                /\ user out' = to_public_user u.
Proof.
  intros RT Hfree Hlen.
  assert (Hne : SignupIn.password body <> EmptyString)
    by (destruct (SignupIn.password body); [simpl in Hlen; lia|discriminate]).
  destruct (RT salt _ Hne) as (h & Hh & Hv).
  unfold signup. rewrite bind_run. simpl.
  rewrite bool_decide_eq_false_2 by (rewrite Hfree; now intros [? ?]).
  destruct (Z.ltb_spec (Z.of_nat (String.length (SignupIn.password body))) 6); [lia|].
  rewrite bind_run. unfold hash_password, lift_library. simpl. rewrite Hh. simpl.
  eexists _, _, _. split; [reflexivity|]. simpl.
  split; [apply elem_of_app; right; left|].
  split; [reflexivity|]. split; [reflexivity|].
  intros e' Ee. rewrite (normalize_email_lower _ _ Ee).
  split; [apply lookup_insert_eq|].
  intros now'. unfold login. rewrite bind_run. simpl.
  rewrite (normalize_email_lower _ _ Ee), lookup_insert_eq.
  rewrite bind_run, verify_password_run. simpl. rewrite Hv. simpl.
  eexists. split; reflexivity.
Qed.

End Accounts.

(** ** The statements at sample data *)

(** The symbolic environment meets both library contracts. *)
Lemma symbolic_jose_round_trip key minutes :
  jose_round_trip (Symbolic.env key minutes).
Proof.
  intros c k now H. simpl. unfold Symbolic.decode, Symbolic.encode. simpl.
  rewrite String.eqb_refl. destruct (exp c) as [e|]; [|reflexivity].
  specialize (H e eq_refl). destruct (Z.ltb_spec e now); [lia|reflexivity].
Qed.

Lemma symbolic_passlib_round_trip key minutes :
  passlib_round_trip (Symbolic.env key minutes).
Proof.
  intros salt p _. eexists. split; [reflexivity|]. simpl.
  unfold Symbolic.verify. now rewrite String.eqb_refl.
Qed.

(** C2 at [Demo.st1]: bob on alice's playlist 1, and on the id 7. *)
Lemma non_owner_is_forbidden_witness :
  refused (HTTPException 403 "Forbidden") 1 Demo.bob Demo.st1
  /\ refused (HTTPException 404 "Playlist not found") 7 Demo.bob Demo.st1.
Proof.
  assert (ND : NoDup (Playlist.id <$> RAW_PLAYLISTS Demo.st1))
    by apply NoDup_singleton.
  split.
  - apply (proj1 (non_owner_is_forbidden Demo.st1 1 Demo.bob ND) Demo.mix);
      [left|reflexivity|simpl; lia].
  - apply (proj2 (non_owner_is_forbidden Demo.st1 7 Demo.bob ND)).
    intros p Hp. apply list_elem_of_singleton in Hp. subst p. simpl. lia.
Defined.

(** C3, as amended, at the run [Demo.churn] from [Demo.st0]. *)
Lemma ids_unique_and_above_stored_witness :
  NoDup (Playlist.id <$> RAW_PLAYLISTS (fst (serve_all Demo.base Demo.churn Demo.st0)))
  /\ Forall (fun i => 0 < i)
       (Playlist.id <$> RAW_PLAYLISTS (fst (serve_all Demo.base Demo.churn Demo.st0)))
  /\ Forall (fun ev => snd ev = py_max (fst ev) 0 + 1
                       /\ Forall (fun i => i < snd ev) (fst ev))
            (snd (serve_all Demo.base Demo.churn Demo.st0)).
Proof.
  apply (ids_unique_and_above_stored Demo.base Demo.churn Demo.st0);
    [apply NoDup_nil_2|apply Forall_nil_2].
Defined.

(** C4, as amended, at a create and a rename from [Demo.st1]. *)
Lemma stored_names_are_stripped_witness :
  let rs := [ Create (PlaylistIn.mk "  Road trip " [1]) Demo.bob "T1";
              Update 1 (PlaylistUpdate.mk (Some " Mix 2") None) Demo.alice "T2" ] in
  Forall trimmed (Playlist.name <$> RAW_PLAYLISTS (fst (serve_all Demo.base rs Demo.st1)))
  /\ Forall trimmed
       (Playlist.name <$> PLAYLIST_DATA_FILE (fst (serve_all Demo.base rs Demo.st1))).
Proof.
  apply (proj2 (stored_names_are_stripped Demo.base)).
  - constructor; [reflexivity|constructor].
  - constructor; [reflexivity|constructor].
Defined.

(** C8 at [Demo.st1]: alice renames playlist 1 and omits the tracks. *)
Lemma update_is_partial_witness :
  exists out,
    update_playlist 1 (PlaylistUpdate.mk (Some " New ") None) Demo.base Demo.alice "T1" Demo.st1
    = (Ok out,
       saved [Playlist.mk 1 1 "New" [1] (Some "T0") (Some "T1")] Demo.st1)
    /\ PlaylistOut.name out = "New"
    /\ PlaylistOut.updated_at out = Some "T1".
Proof.
  apply (proj2 (update_is_partial 1 (PlaylistUpdate.mk (Some " New ") None) Demo.base
                  Demo.alice "T1" Demo.st1) O Demo.mix).
  - reflexivity.
  - reflexivity.
  - intros ts H. discriminate H.
Defined.

(** C7 for alice in [Demo.st0], read at the second of issuance. *)
Lemma token_round_trip_witness :
  exists u',
    get_current_user (E := Demo.env)
      (Some (create_access_token (E := Demo.env)
               (Claims (Some (PyStr.str_of_int (User.id Demo.alice))) None)
               None 1000))
      1000 Demo.st0
    = (Ok u', Demo.st0)
    /\ User.id u' = User.id Demo.alice
    /\ (NoDup (User.id <$> RAW_USERS Demo.st0) -> u' = Demo.alice).
Proof.
  apply (token_round_trip (E := Demo.env) Demo.st0 Demo.alice None 1000 1000).
  - apply symbolic_jose_round_trip.
  - left.
  - vm_compute. reflexivity.
Defined.

(** C9, as amended, at [Demo.odd_token] with two users stored. *)
Lemma subject_that_is_no_number_witness :
  get_current_user (E := Demo.env) (Some Demo.odd_token) 50 Demo.st0
  = (Raise ValueError, Demo.st0).
Proof.
  apply (proj2 (subject_that_is_no_number (E := Demo.env) Demo.st0 Demo.odd_token 50
                  (Claims (Some "abc") (Some 100)) eq_refl) "abc");
    reflexivity.
Defined.

(** C9, as stated: [Demo.odd_token] decodes under the key, before its
    expiry, to the subject abc, which [int] rejects; in a repository
    without users the request is answered 401. *)
Lemma subject_that_is_no_number_unauthorized :
  jwt_decode (Environment := Demo.env) Demo.odd_token "k" 50
  = Some (Claims (Some "abc") (Some 100))
  /\ PyStr.int_of_str "abc" = None
  /\ RAW_USERS Demo.fresh = []
  /\ get_current_user (E := Demo.env) (Some Demo.odd_token) 50 Demo.fresh
     = (Raise (HTTPException 401 "User not found"), Demo.fresh).
Proof. repeat split. Qed.

(** C10 at [Demo.st0]: a taken e-mail in another case, and a free one,
    both with a password of three characters. *)
Lemma signup_error_precedence_witness :
  signup (E := Demo.env) (SignupIn.mk "Alice@X.com" "abc" None) "s" 0 Demo.st0
  = (Raise (HTTPException 400 "Email already registered"), Demo.st0)
  /\ signup (E := Demo.env) (SignupIn.mk "dave@x.com" "abc" None) "s" 0 Demo.st0
     = (Raise (HTTPException 400 "Password must be at least 6 characters"), Demo.st0).
Proof.
  split.
  - apply (proj1 (signup_error_precedence (E := Demo.env) Demo.st0
                    (SignupIn.mk "Alice@X.com" "abc" None) "s" 0) "ALICE@x.COM").
    + reflexivity.
    + exists Demo.alice. vm_compute. reflexivity.
  - apply (proj2 (signup_error_precedence (E := Demo.env) Demo.st0
                    (SignupIn.mk "dave@x.com" "abc" None) "s" 0)).
    + vm_compute. reflexivity.
    + simpl. lia.
Defined.

(** C6 at [Demo.st0]: carol signs up. *)
Lemma signup_then_login_witness :
  let body := SignupIn.mk "Carol@X.com" "secret1" None in
  exists out st' u,
    signup (E := Demo.env) body "s" 0 Demo.st0 = (Ok out, st')
    /\ u ∈ RAW_USERS st'
    /\ User.email u = "carol@x.com"
    /\ user out = to_public_user u
    /\ forall e', PyStr.lower e' = "carol@x.com" ->
         USERS_BY_EMAIL st' !! normalize_email e' = Some u
         /\ forall now',
              exists out',
                login (E := Demo.env) (LoginIn.mk e' "secret1") now' st' = (Ok out', st')
                /\ user out' = to_public_user u.
Proof.
  apply (signup_then_login (E := Demo.env) Demo.st0
           (SignupIn.mk "Carol@X.com" "secret1" None) "s" 0).
  - apply symbolic_passlib_round_trip.
  - vm_compute. reflexivity.
  - simpl. lia.
Defined.

(** * Further properties *)

(** ** Tracks and search *)

Lemma append_cons c p b : String c p +:+ b = String c (p +:+ b).
Proof. reflexivity. Qed.

Lemma append_nil b : EmptyString +:+ b = b.
Proof. reflexivity. Qed.

Lemma append_inv_head a x y : a +:+ x = a +:+ y -> x = y.
Proof.
  induction a as [|c a IH]; [trivial|].
  rewrite !append_cons. intros [= H]. now apply IH.
Qed.

Lemma prefix_app p s : String.prefix p s = true <-> exists b, s = p +:+ b.
Proof.
  revert s. induction p as [|a p IH]; intros s.
  - split; [intros _; now exists s|now destruct s].
  - destruct s as [|c s]; simpl.
    + split; [discriminate|]. intros [b H]. discriminate H.
    + destruct (Ascii.ascii_dec a c) as [->|N].
      * rewrite IH. split; intros [b H]; exists b; rewrite append_cons in *; congruence.
      * split; [discriminate|]. intros [b H]. rewrite append_cons in H. congruence.
Qed.

Lemma contains_occurs sub s :
  contains sub s = true <-> exists a b, s = a +:+ sub +:+ b.
Proof.
  induction s as [|c s IH]; cbn [contains].
  - rewrite orb_false_r, prefix_app. split.
    + intros [b H]. now exists EmptyString, b.
    + intros (a & b & H). destruct a; [now exists b|discriminate].
  - rewrite orb_true_iff, prefix_app, IH. split.
    + intros [[b H]|(a & b & H)].
      * now exists EmptyString, b.
      * exists (String c a), b. rewrite append_cons. now rewrite H.
    + intros (a & b & H). destruct a as [|d a].
      * left. now exists b.
      * right. exists a, b. rewrite append_cons in H. congruence.
Qed.

Lemma contains_empty s : contains EmptyString s = true.
Proof. apply contains_occurs. now exists EmptyString, s. Qed.

(** X1. A search never fails and leaves the state alone; it returns, in
    catalog order, the serialized tracks in whose lower-cased title or
    artist the lower-cased query occurs, and nothing else. *)
Theorem search_tracks_matches q base st :
  exists outs,
    search_tracks q base st = (Ok outs, st)
    /\ outs `sublist_of` (serialize_track base <$> RAW_TRACKS st)
    /\ forall t, t ∈ RAW_TRACKS st ->
         (serialize_track base t ∈ outs
          <-> (exists a b, PyStr.lower (Track.title t) = a +:+ PyStr.lower q +:+ b)
              \/ (exists a b, PyStr.lower (Track.artist t) = a +:+ PyStr.lower q +:+ b)).
Proof.
  eexists. split; [reflexivity|]. split.
  - apply fmap_sublist. induction (RAW_TRACKS st) as [|t l IH]; simpl; [constructor|].
    destruct (_ || _); [now apply sublist_skip|now apply sublist_cons].
  - intros t Ht. rewrite <- !contains_occurs, <- orb_true_iff. split.
    + intros H. apply list_elem_of_fmap in H as (t' & Et & H).
      apply list_elem_of_In, filter_In in H as [_ H].
      assert (t' = t) as ->; [|exact H].
      destruct t, t'. unfold serialize_track in Et. simpl in *.
      injection Et as -> -> -> Eu. f_equal.
      unfold absolute_audio_url in Eu.
      now do 2 apply append_inv_head in Eu.
    + intros H. apply list_elem_of_fmap_2, list_elem_of_In, filter_In.
      split; [now apply list_elem_of_In|exact H].
Qed.

(** X2. The empty query matches every track: the search returns what
    [list_tracks] returns. *)
Theorem search_tracks_empty_query base st :
  search_tracks EmptyString base st = list_tracks base st.
Proof.
  unfold search_tracks, list_tracks, mbind, M_bind, get_state, mret, M_ret. simpl.
  do 3 f_equal. induction (RAW_TRACKS st) as [|t l IH]; [reflexivity|].
  simpl. now rewrite contains_empty, IH.
Qed.

Lemma rstrip_by_snoc_drop drop s c :
  drop c = true ->
  PyStr.rstrip_by drop (s +:+ String c EmptyString) = PyStr.rstrip_by drop s.
Proof.
  intros D. induction s as [|a s IH].
  - simpl. now rewrite D.
  - rewrite append_cons. simpl. now rewrite IH.
Qed.

Lemma rstrip_by_no_tail drop s t c :
  drop c = true -> PyStr.rstrip_by drop s <> t +:+ String c EmptyString.
Proof.
  intros D. revert t. induction s as [|a s IH]; intros t; simpl.
  - destruct t; discriminate.
  - destruct (PyStr.rstrip_by drop s) as [|d r] eqn:R.
    + destruct (drop a) eqn:Da.
      * destruct t; discriminate.
      * destruct t as [|b t]; [intros [= ->]; congruence|].
        rewrite append_cons. destruct t; discriminate.
    + destruct t as [|b t]; [discriminate|].
      rewrite append_cons. intros [= _ H]. exact (IH t H).
Qed.

(** X3. The audio URL does not depend on slashes at the end of the base
    address, and the base it is built on never ends with a slash, so that
    exactly the slash of [/audio/] follows it. *)
Theorem absolute_audio_url_trailing_slash base filename :
  absolute_audio_url (base +:+ "/") filename = absolute_audio_url base filename
  /\ (exists stem, absolute_audio_url base filename = stem +:+ "/audio/" +:+ filename
                   /\ forall t, stem <> t +:+ "/").
Proof.
  unfold absolute_audio_url, PyStr.rstrip_slash. split.
  - now rewrite rstrip_by_snoc_drop.
  - eexists. split; [reflexivity|]. intros t. now apply rstrip_by_no_tail.
Qed.

(** ** Enrichment and reads *)

Lemma populate_tracks base (m : gmap Z Track.t) (ids : list Z) :
  (forall i t, m !! i = Some t -> Track.id t = i) ->
  Track.out_id <$> omap (fun tid => serialize_track base <$> m !! tid) ids
  = filter (fun tid => tid ∈ dom m) ids.
Proof.
  intros Hm. induction ids as [|i ids IH]; [reflexivity|]. simpl.
  destruct (m !! i) as [t|] eqn:L; simpl.
  - rewrite filter_cons_True by (apply elem_of_dom; eauto).
    rewrite (Hm _ _ L). f_equal. exact IH.
  - rewrite filter_cons_False by (now rewrite not_elem_of_dom). exact IH.
Qed.

(** X4. Enriching a playlist never fails and changes nothing; it copies
    the id, the owner, the name and the two times, and, the index keying
    every track by its own id, the tracks it returns are those of the
    stored ids that the catalog knows, in their order and with their
    repetitions: the unknown ids are dropped without an error. *)
Theorem populate_playlist_drops_unknown base pl st :
  tracks_indexed st ->
  exists out,
    populate_playlist base pl st = (Ok out, st)
    /\ Track.out_id <$> PlaylistOut.tracks out
       = filter (fun tid => tid ∈ dom (TRACK_BY_ID st)) (Playlist.tracks pl)
    /\ PlaylistOut.id out = Playlist.id pl
    /\ PlaylistOut.user_id out = Playlist.user_id pl
    /\ PlaylistOut.name out = Playlist.name pl
    /\ PlaylistOut.created_at out = Playlist.created_at pl
    /\ PlaylistOut.updated_at out = Playlist.updated_at pl.
Proof.
  intros Hm. eexists. split; [reflexivity|]. simpl.
  split; [now apply populate_tracks|]. repeat split.
Qed.

Lemma mapM_populate base ps st :
  exists outs,
    mapM (populate_playlist base) ps st = (Ok outs, st)
    /\ Forall2 (fun p o => populate_playlist base p st = (Ok o, st)) ps outs.
Proof.
  induction ps as [|p ps (outs & E & F)].
  - exists []. split; [reflexivity|constructor].
  - destruct (populate_playlist_run base p st) as (o & Eo & _).
    exists (o :: outs). split.
    + simpl. rewrite bind_run, Eo, bind_run, E. reflexivity.
    + now constructor.
Qed.

Lemma list_playlists_run base u st :
  exists outs,
    list_playlists base u st = (Ok outs, st)
    /\ Forall2 (fun p o => populate_playlist base p st = (Ok o, st))
         (filter (fun p => Playlist.user_id p = User.id u) (RAW_PLAYLISTS st)) outs.
Proof.
  unfold list_playlists. rewrite bind_run. simpl. apply mapM_populate.
Qed.

(** X5. Listing never fails and changes nothing; it returns, in storage
    order, the enrichment of exactly the stored playlists whose owner is
    the caller. *)
Theorem list_playlists_own base u st :
  exists outs,
    list_playlists base u st = (Ok outs, st)
    /\ Forall2 (fun p o => populate_playlist base p st = (Ok o, st))
         (filter (fun p => Playlist.user_id p = User.id u) (RAW_PLAYLISTS st)) outs
    /\ Forall (fun o => PlaylistOut.user_id o = User.id u) outs.
Proof.
  destruct (list_playlists_run base u st) as (outs & E & F).
  exists outs. split; [exact E|]. split; [exact F|].
  assert (O : Forall (fun p => Playlist.user_id p = User.id u)
                (filter (fun p => Playlist.user_id p = User.id u) (RAW_PLAYLISTS st))).
  { apply Forall_forall. intros p Hp. now apply list_elem_of_filter in Hp as [Hp _]. }
  clear E. induction F as [|p o ps os Ep F IH]; [constructor|].
  apply Forall_cons in O as [Op O]. constructor; [|now apply IH].
  destruct (populate_playlist_run base p st) as (o' & Eo & _ & Eu & _).
  rewrite Ep in Eo. injection Eo as <-. now rewrite Eu.
Qed.

(** X6. What a user gets for a playlist id is one of the elements that
    user's listing returns. *)
Theorem get_playlist_in_listing pid base u st out :
  get_playlist pid base u st = (Ok out, st) ->
  exists outs, list_playlists base u st = (Ok outs, st) /\ out ∈ outs.
Proof.
  intros G. rewrite get_playlist_run in G.
  destruct (find_playlist pid (RAW_PLAYLISTS st)) as [[i pl]|] eqn:F; [|discriminate].
  destruct (Playlist.user_id pl =? User.id u) eqn:O; [|discriminate].
  apply Z.eqb_eq in O. apply find_playlist_Some in F as [L _].
  destruct (list_playlists_run base u st) as (outs & E & F2).
  exists outs. split; [exact E|].
  assert (Hp : pl ∈ filter (fun p => Playlist.user_id p = User.id u) (RAW_PLAYLISTS st)).
  { apply list_elem_of_filter. split; [exact O|]. eapply list_elem_of_lookup_2, L. }
  clear E. induction F2 as [|p o ps os Ep F2 IH]; [inversion Hp|].
  apply elem_of_cons in Hp as [<-|Hp].
  - rewrite G in Ep. injection Ep as <-. left.
  - right. now apply IH.
Qed.

(** ** Writes *)

(** X7. A create that names a track id the catalog does not know raises
    400, reports exactly the unknown ids of the request, in its order, and
    leaves memory and file as they were. *)
Theorem create_playlist_unknown_track body base u now st t :
  t ∈ PlaylistIn.tracks body -> t ∉ dom (TRACK_BY_ID st) ->
  create_playlist body base u now st
  = (Raise (HTTPException 400
       ("Unknown track ids: " +:+
        PyStr.str_of_int_list
          (filter (fun tid => tid ∉ dom (TRACK_BY_ID st)) (PlaylistIn.tracks body)))),
     st).
Proof.
  intros Ht Hm. rewrite create_playlist_run.
  pose proof (filter_unknown_cons _ _ _ Ht Hm) as N.
  destruct (filter _ _); [congruence|reflexivity].
Qed.

Lemma find_playlist_app_new pid ps p :
  (forall q, q ∈ ps -> Playlist.id q <> pid) -> Playlist.id p = pid ->
  find_playlist pid (ps ++ [p]) = Some (length ps, p).
Proof.
  intros H Ep. induction ps as [|q ps IH]; simpl.
  - rewrite Ep, Z.eqb_refl. reflexivity.
  - assert (Nq : Playlist.id q <> pid) by (apply H; left).
    apply Z.eqb_neq in Nq. rewrite Nq, IH; [reflexivity|].
    intros r Hr. apply H. now right.
Qed.

(** X8. A create whose track ids are all known succeeds: the new playlist
    goes to the end of the store with the next id, the caller as owner, the
    stripped name, the tracks as sent and one time for both stamps; the
    file is rewritten to the new store; after it the creator's get on the
    returned id answers what the create answered, and anyone else's is
    refused with 403. *)
Theorem create_playlist_then_get body base u now st :
  Forall (fun t => t ∈ dom (TRACK_BY_ID st)) (PlaylistIn.tracks body) ->
  let new_pl :=
    Playlist.mk (next_playlist_id st) (User.id u)
                (PyStr.strip (PlaylistIn.name body)) (PlaylistIn.tracks body)
                (Some now) (Some now) in
  exists out,
    create_playlist body base u now st
    = (Ok out, saved (RAW_PLAYLISTS st ++ [new_pl]) st)
    /\ PlaylistOut.id out = next_playlist_id st
    /\ forall base' v,
         get_playlist (PlaylistOut.id out) base' v
           (saved (RAW_PLAYLISTS st ++ [new_pl]) st)
         = if User.id u =? User.id v
           then populate_playlist base' new_pl (saved (RAW_PLAYLISTS st ++ [new_pl]) st)
           else (Raise (HTTPException 403 "Forbidden"),
                 saved (RAW_PLAYLISTS st ++ [new_pl]) st).
Proof.
  intros V. rewrite create_playlist_run, (filter_unknown_nil _ _ V).
  eexists. split; [reflexivity|]. split; [reflexivity|].
  intros base' v. rewrite get_playlist_run. simpl.
  rewrite (find_playlist_app_new (next_playlist_id st)); [reflexivity| |reflexivity].
  intros q Hq. pose proof (next_playlist_id_above st) as A.
  rewrite Forall_fmap, Forall_forall in A. specialize (A _ Hq). simpl in A. lia.
Qed.

Lemma filter_all {A} (P : A -> Prop) `{forall x, Decision (P x)} (l : list A) :
  Forall P l -> filter P l = l.
Proof.
  induction 1 as [|x l Hx _ IH]; [reflexivity|].
  rewrite filter_cons_True by exact Hx. now rewrite IH.
Qed.

Lemma pop_first_absent pid ps :
  NoDup (Playlist.id <$> ps) ->
  pop_first pid ps = filter (fun p => Playlist.id p <> pid) ps.
Proof.
  induction ps as [|p ps IH]; intros ND; [reflexivity|].
  rewrite fmap_cons in ND. apply NoDup_cons in ND as [Np ND]. simpl.
  destruct (Z.eqb_spec (Playlist.id p) pid) as [Ep|Np'].
  - rewrite filter_cons_False by (intros N; now apply N).
    symmetry. apply filter_all, Forall_forall. intros q Hq Eq.
    apply Np. rewrite Ep, <- Eq. now apply list_elem_of_fmap_2.
  - rewrite filter_cons_True by exact Np'. now rewrite IH.
Qed.

(** X9. With unique ids, a delete by the owner succeeds, removes the
    playlist with that id and no other, keeps the order of the rest and
    rewrites the file to the new store; from then on get, update and
    delete on that id are answered 404, a second delete included. *)
Theorem delete_playlist_removes pid u st i pl :
  NoDup (Playlist.id <$> RAW_PLAYLISTS st) ->
  find_playlist pid (RAW_PLAYLISTS st) = Some (i, pl) ->
  Playlist.user_id pl = User.id u ->
  let st' := saved (filter (fun p => Playlist.id p <> pid) (RAW_PLAYLISTS st)) st in
  delete_playlist pid u st = (Ok tt, st')
  /\ forall v, refused (HTTPException 404 "Playlist not found") pid v st'.
Proof.
  intros ND F O. apply Z.eqb_eq in O. split.
  - rewrite delete_playlist_run, F, O. now rewrite pop_first_absent.
  - intros v.
    assert (N : find_playlist pid
                  (filter (fun p => Playlist.id p <> pid) (RAW_PLAYLISTS st)) = None).
    { apply find_playlist_None. intros p Hp.
      now apply list_elem_of_filter in Hp as [Hp _]. }
    repeat split; intros;
      rewrite ?get_playlist_run, ?update_playlist_run, ?delete_playlist_run; simpl;
      rewrite N; reflexivity.
Qed.

(** X10. Create and delete keep the playlist file equal to the memory,
    whatever their outcome; so does an update unless it is the one that
    fails on its track ids after it was given a name. Reads change
    nothing. *)
Theorem playlist_file_in_sync st :
  playlists_in_sync st ->
  (forall body base u now,
     playlists_in_sync (snd (create_playlist body base u now st)))
  /\ (forall pid u, playlists_in_sync (snd (delete_playlist pid u st)))
  /\ (forall pid body base u now,
        (PlaylistUpdate.name body = None
         \/ exists out, fst (update_playlist pid body base u now st) = Ok out) ->
        playlists_in_sync (snd (update_playlist pid body base u now st)))
  /\ (forall pid base u, snd (get_playlist pid base u st) = st)
  /\ (forall base u, snd (list_playlists base u st) = st).
Proof.
  intros S. repeat split.
  - intros body base u now.
    destruct (create_playlist_cases body base u now st) as [[e ->]|[out [-> _]]];
      [exact S|reflexivity].
  - intros pid u. destruct (delete_playlist_cases pid u st) as [->| ->];
      [exact S|reflexivity].
  - intros pid body base u now H. rewrite update_playlist_run in *.
    destruct (find_playlist pid (RAW_PLAYLISTS st)) as [[i pl]|]; [|exact S].
    destruct (Playlist.user_id pl =? User.id u); [|exact S].
    destruct body as [[n|] [ts|]]; simpl in *;
      try destruct (filter _ ts); simpl in *; try reflexivity; try exact S;
      destruct H as [H|[out H]]; discriminate.
  - intros pid base u. rewrite get_playlist_run.
    destruct (find_playlist pid (RAW_PLAYLISTS st)) as [[i pl]|]; [|reflexivity].
    now destruct (Playlist.user_id pl =? User.id u).
  - intros base u. now destruct (list_playlists_run base u st) as (outs & -> & _).
Qed.

(** ** Sessions *)

Section Sessions.

Context {E : Environment}.

Lemma find_user_Ok uid users u :
  find_user uid users = Ok u ->
  u ∈ users /\ PyStr.int_of_str uid = Some (User.id u).
Proof.
  induction users as [|v rest IH]; simpl; [discriminate|].
  destruct (PyStr.int_of_str uid) as [n|]; [|discriminate].
  destruct (Z.eqb_spec (User.id v) n) as [<-|N].
  - intros [= ->]. split; [left|reflexivity].
  - intros H. destruct (IH H) as [Hu Hn]. split; [now right|exact Hn].
Qed.

Lemma find_user_Raise uid users e :
  find_user uid users = Raise e ->
  e = ValueError \/ e = HTTPException 401 "User not found".
Proof.
  induction users as [|v rest IH]; simpl.
  - intros [= <-]. now right.
  - destruct (PyStr.int_of_str uid) as [n|]; [|intros [= <-]; now left].
    destruct (User.id v =? n); [discriminate|exact IH].
Qed.

Lemma get_current_user_state cookie now st :
  snd (get_current_user cookie now st) = st.
Proof.
  unfold get_current_user. destruct cookie as [tok|]; [|reflexivity].
  destruct (jwt_decode tok SECRET_KEY now) as [payload|]; [|reflexivity].
  now destruct (sub payload).
Qed.

(** X11. Resolving a session never changes the state. When it yields a
    user, that user is in the repository and has the id the subject of the
    decoded token denotes. When it fails, it raises an [HTTPException]
    with status 401, or the [ValueError] of the subject conversion, and
    nothing else; without a cookie, or with a token jose refuses, it is
    401. *)
Theorem get_current_user_outcomes cookie now st :
  snd (get_current_user cookie now st) = st
  /\ (forall u, fst (get_current_user cookie now st) = Ok u ->
        u ∈ RAW_USERS st
        /\ exists tok payload uid,
             cookie = Some tok
             /\ jwt_decode tok SECRET_KEY now = Some payload
             /\ sub payload = Some uid
             /\ PyStr.int_of_str uid = Some (User.id u))
  /\ (forall e, fst (get_current_user cookie now st) = @Raise User.t e ->
        e = ValueError \/ exists detail, e = HTTPException 401 detail)
  /\ ((cookie = None
       \/ exists tok, cookie = Some tok /\ jwt_decode tok SECRET_KEY now = None) ->
      unauthorized (fst (get_current_user cookie now st))).
Proof.
  unfold get_current_user, unauthorized.
  destruct cookie as [tok|]; simpl.
  2:{ repeat split; try discriminate.
      - intros e [= <-]. right. eauto.
      - intros _. eauto. }
  destruct (jwt_decode tok SECRET_KEY now) as [payload|] eqn:D; simpl.
  2:{ repeat split; try discriminate.
      - intros e [= <-]. right. eauto.
      - intros _. eauto. }
  destruct (sub payload) as [uid|] eqn:S; simpl.
  2:{ repeat split; try discriminate.
      - intros e [= <-]. right. eauto.
      - intros [N|(t & [= <-] & N)]; congruence. }
  repeat split.
  - now apply find_user_Ok in H.
  - apply find_user_Ok in H as [_ H]. eauto 10.
  - intros e H. destruct (find_user_Raise _ _ _ H) as [->| ->]; eauto.
  - intros [N|(t & [= <-] & N)]; congruence.
Qed.

(** X12. A protected route whose session does not resolve raises what the
    session check raised and changes nothing: neither the playlists in
    memory nor a file is touched, whatever the request asked for. *)
Theorem protected_routes_need_session cookie now st e :
  fst (get_current_user cookie now st) = Raise e ->
  GET_auth_me cookie now st = (Raise e, st)
  /\ (forall base, GET_playlists cookie now base st = (Raise e, st))
  /\ (forall pid base, GET_playlist cookie now pid base st = (Raise e, st))
  /\ (forall body base stamp,
        POST_playlists cookie now body base stamp st = (Raise e, st))
  /\ (forall pid body base stamp,
        PUT_playlist cookie now pid body base stamp st = (Raise e, st))
  /\ (forall pid, DELETE_playlist cookie now pid st = (Raise e, st)).
Proof.
  intros H.
  pose proof (get_current_user_state cookie now st) as S.
  unfold GET_auth_me, GET_playlists, GET_playlist, POST_playlists, PUT_playlist,
    DELETE_playlist, depends_current_user.
  repeat split; intros; rewrite bind_run;
    destruct (get_current_user cookie now st) as [r st0]; simpl in *; subst;
    reflexivity.
Qed.


Lemma find_user_app_new users u :
  Forall (fun v => User.id v < User.id u) users ->
  find_user (PyStr.str_of_int (User.id u)) (users ++ [u]) = Ok u.
Proof.
  induction 1 as [|v users Hv _ IH]; simpl; rewrite int_of_str_of_int.
  - now rewrite Z.eqb_refl.
  - destruct (Z.eqb_spec (User.id v) (User.id u)); [lia|exact IH].
Qed.

Lemma next_user_id_above st :
  Forall (fun v => User.id v < next_user_id st) (RAW_USERS st).
Proof.
  unfold next_user_id.
  pose proof (py_max_bounds (User.id <$> RAW_USERS st) 0) as B.
  rewrite Forall_fmap in B. eapply Forall_impl; [exact B|]. simpl. intros; lia.
Qed.

(** What a signup does, case by case. *)
Lemma signup_cases body salt now st :
  (exists e, signup body salt now st = (Raise e, st))
  \/ (exists hashed,
        pwd_hash salt (SignupIn.password body) = Some hashed
        /\ USERS_BY_EMAIL st !! normalize_email (SignupIn.email body) = None
        /\ (6 <= String.length (SignupIn.password body))%nat
        /\ let email := normalize_email (SignupIn.email body) in
           let u := User.mk (next_user_id st) email (Some hashed)
                      (Some (name_or_local_part (SignupIn.name body) email))
                      (Some "user") in
           signup body salt now st
           = (Ok (mkLoginOut
                    (create_access_token
                       (Claims (Some (PyStr.str_of_int (next_user_id st))) None) None now)
                    "bearer" (to_public_user u)),
              State (RAW_TRACKS st) (TRACK_BY_ID st) (RAW_USERS st ++ [u])
                    (<[email := u]> (USERS_BY_EMAIL st)) (RAW_PLAYLISTS st)
                    (RAW_USERS st ++ [u]) (PLAYLIST_DATA_FILE st))).
Proof.
  unfold signup. rewrite bind_run. simpl.
  destruct (USERS_BY_EMAIL st !! normalize_email (SignupIn.email body)) as [v|] eqn:L.
  - left. rewrite bool_decide_eq_true_2 by eauto. now eexists.
  - rewrite bool_decide_eq_false_2 by (now intros [? ?]).
    destruct (Z.ltb_spec (Z.of_nat (String.length (SignupIn.password body))) 6).
    + left. now eexists.
    + rewrite bind_run. unfold hash_password, lift_library. simpl.
      destruct (pwd_hash salt (SignupIn.password body)) as [h|] eqn:Hh.
      * right. exists h. repeat split. lia.
      * left. now eexists.
Qed.

Lemma session_of_user st u delta now now' :
  jose_round_trip E ->
  now' < now + delta_or_default delta ->
  get_current_user
    (Some (create_access_token
             (Claims (Some (PyStr.str_of_int (User.id u))) None) delta now))
    now' st
  = (find_user (PyStr.str_of_int (User.id u)) (RAW_USERS st), st).
Proof.
  intros RT Ht. unfold get_current_user, create_access_token.
  now rewrite RT by (simpl; intros e [= <-]; exact Ht).
Qed.

Lemma depends_current_user_Ok {A} cookie now st u st' (h : User.t -> M A) :
  get_current_user cookie now st = (Ok u, st') ->
  depends_current_user cookie now h st = h u st'.
Proof. intros G. unfold depends_current_user. now rewrite bind_run, G. Qed.

(** X13. With a jose that round-trips: the token a successful signup
    returns and sets as cookie resolves, from the second of the signup
    until the default window has run out, to the user just created, and
    [/auth/me] under it answers the user the signup answered. *)
Theorem signup_cookie_authenticates st body salt now now' out st' :
  jose_round_trip E ->
  signup body salt now st = (Ok out, st') ->
  now' < now + ACCESS_TOKEN_EXPIRE_MINUTES * 60 ->
  exists u,
    get_current_user (Some (access_token out)) now' st' = (Ok u, st')
    /\ u ∈ RAW_USERS st'
    /\ to_public_user u = user out
    /\ GET_auth_me (Some (access_token out)) now' st' = (Ok (user out), st').
Proof.
  intros RT S Ht.
  destruct (signup_cases body salt now st) as [[e Se]|(h & _ & _ & _ & Se)];
    rewrite Se in S; [discriminate|].
  injection S as <- <-. simpl.
  set (u := User.mk (next_user_id st) _ _ _ _).
  assert (G : get_current_user
                (Some (create_access_token
                         (Claims (Some (PyStr.str_of_int (User.id u))) None) None now))
                now' (State (RAW_TRACKS st) (TRACK_BY_ID st) (RAW_USERS st ++ [u])
                        (<[normalize_email (SignupIn.email body) := u]> (USERS_BY_EMAIL st))
                        (RAW_PLAYLISTS st) (RAW_USERS st ++ [u]) (PLAYLIST_DATA_FILE st))
              = (Ok u, State (RAW_TRACKS st) (TRACK_BY_ID st) (RAW_USERS st ++ [u])
                        (<[normalize_email (SignupIn.email body) := u]> (USERS_BY_EMAIL st))
                        (RAW_PLAYLISTS st) (RAW_USERS st ++ [u]) (PLAYLIST_DATA_FILE st))).
  { rewrite session_of_user by assumption. cbn [RAW_USERS].
    rewrite find_user_app_new; [reflexivity|]. apply next_user_id_above. }
  exists u. split; [exact G|]. split; [apply elem_of_app; right; left|].
  split; [reflexivity|].
  unfold GET_auth_me.
  etransitivity; [apply (depends_current_user_Ok _ _ _ _ _ _ G)|reflexivity].
Qed.

(** X14. A signup, whatever its outcome, keeps the user repository well
    formed: every index entry is still a stored user, the user ids are
    still unique, and the user file holds what the memory holds if it did
    before; it touches neither the catalog nor the playlists nor their
    file. *)
Theorem signup_keeps_repository body salt now st :
  users_indexed st ->
  NoDup (User.id <$> RAW_USERS st) ->
  let st' := snd (signup body salt now st) in
  users_indexed st'
  /\ NoDup (User.id <$> RAW_USERS st')
  /\ (USER_DATA_FILE st = RAW_USERS st -> USER_DATA_FILE st' = RAW_USERS st')
  /\ RAW_PLAYLISTS st' = RAW_PLAYLISTS st
  /\ PLAYLIST_DATA_FILE st' = PLAYLIST_DATA_FILE st
  /\ TRACK_BY_ID st' = TRACK_BY_ID st
  /\ RAW_TRACKS st' = RAW_TRACKS st.
Proof.
  intros UI ND.
  destruct (signup_cases body salt now st) as [[e ->]|(h & _ & _ & _ & ->)]; simpl.
  - repeat split; auto.
  - repeat split.
    + intros k u L. simpl in L |- *. apply elem_of_app.
      destruct (decide (normalize_email (SignupIn.email body) = k)) as [<-|N].
      * rewrite lookup_insert_eq in L. injection L as <-. right. left.
      * rewrite lookup_insert_ne in L by exact N. left. eapply UI, L.
    + rewrite fmap_app. apply NoDup_app. repeat split; [exact ND| |apply NoDup_singleton].
      intros x Hx Hn. apply list_elem_of_singleton in Hn. simpl in Hn. subst x.
      apply list_elem_of_fmap in Hx as (v & Ev & Hv).
      pose proof (next_user_id_above st) as A. rewrite Forall_forall in A.
      specialize (A _ Hv). simpl in A. lia.
Qed.

(** What a login does, case by case. *)
Lemma login_cases body now st :
  login body now st =
  match USERS_BY_EMAIL st !! normalize_email (LoginIn.email body) with
  | None => (Raise (HTTPException 401 "Invalid email or password"), st)
  | Some u =>
      match pwd_verify (LoginIn.password body) (default EmptyString (User.password u)) with
      | None => (Raise LibraryError, st)
      | Some false => (Raise (HTTPException 401 "Invalid email or password"), st)
      | Some true =>
          (Ok (mkLoginOut
                 (create_access_token
                    (Claims (Some (PyStr.str_of_int (User.id u))) None) None now)
                 "bearer" (to_public_user u)), st)
      end
  end.
Proof.
  unfold login. rewrite bind_run. simpl.
  destruct (USERS_BY_EMAIL st !! normalize_email (LoginIn.email body)) as [u|];
    [|reflexivity].
  rewrite bind_run, verify_password_run. simpl.
  now destruct (pwd_verify _ _) as [[|]|].
Qed.

(** X15. A login never changes the state. An e-mail that is no key of the
    index and a password the library does not verify against the stored
    hash (the empty text when the user has none) get one and the same
    answer, 401 Invalid email or password. *)
Theorem login_failures body now st :
  snd (login body now st) = st
  /\ (USERS_BY_EMAIL st !! normalize_email (LoginIn.email body) = None ->
      fst (login body now st)
      = Raise (HTTPException 401 "Invalid email or password"))
  /\ (forall u,
        USERS_BY_EMAIL st !! normalize_email (LoginIn.email body) = Some u ->
        pwd_verify (LoginIn.password body) (default EmptyString (User.password u))
        = Some false ->
        fst (login body now st)
        = Raise (HTTPException 401 "Invalid email or password")).
Proof.
  rewrite login_cases. repeat split.
  - destruct (USERS_BY_EMAIL st !! _) as [u|]; [|reflexivity].
    now destruct (pwd_verify _ _) as [[|]|].
  - now intros ->.
  - intros u -> V. now rewrite V.
Qed.

(** X16. With a jose that round-trips and an index whose entries are
    stored users: the token a successful login returns resolves, until the
    default window has run out, to a stored user with the id of the user
    the login answered, that very user when the ids are unique. *)
Theorem login_cookie_authenticates st body now now' out st' :
  jose_round_trip E ->
  users_indexed st ->
  login body now st = (Ok out, st') ->
  now' < now + ACCESS_TOKEN_EXPIRE_MINUTES * 60 ->
  st' = st
  /\ exists u,
       get_current_user (Some (access_token out)) now' st = (Ok u, st)
       /\ u ∈ RAW_USERS st
       /\ User.id u = PublicUser.id (user out)
       /\ (NoDup (User.id <$> RAW_USERS st) -> to_public_user u = user out).
Proof.
  intros RT UI L Ht. rewrite login_cases in L.
  destruct (USERS_BY_EMAIL st !! normalize_email (LoginIn.email body)) as [v|] eqn:Lv;
    [|discriminate].
  destruct (pwd_verify _ _) as [[|]|]; try discriminate.
  injection L as <- <-. split; [reflexivity|].
  apply UI in Lv. destruct (find_user_of_id _ _ Lv) as (u & F & Ei).
  exists u. cbn [access_token user].
  rewrite session_of_user by assumption. rewrite F.
  split; [reflexivity|]. apply find_user_member in F.
  split; [exact F|]. split; [exact Ei|].
  intros ND. f_equal. now apply (NoDup_fmap_eq User.id (RAW_USERS st)).
Qed.

(** X17. A zero [expires_delta] is falsy and gives way to the default
    window: with a jose that round-trips, the token issued with it for a
    stored user still resolves to a user with that id at any time before
    the default window has run out. *)
Theorem zero_delta_is_default_window st u now now' :
  jose_round_trip E ->
  u ∈ RAW_USERS st ->
  now' < now + ACCESS_TOKEN_EXPIRE_MINUTES * 60 ->
  create_access_token (Claims (Some (PyStr.str_of_int (User.id u))) None) (Some 0) now
  = create_access_token (Claims (Some (PyStr.str_of_int (User.id u))) None) None now
  /\ exists u',
       get_current_user
         (Some (create_access_token
                  (Claims (Some (PyStr.str_of_int (User.id u))) None) (Some 0) now))
         now' st
       = (Ok u', st)
       /\ User.id u' = User.id u.
Proof.
  intros RT Hu Ht. split; [reflexivity|].
  destruct (find_user_of_id _ _ Hu) as (u' & F & Ei).
  exists u'. rewrite session_of_user by assumption. now rewrite F.
Qed.

(** X18. With a jose that refuses its expired tokens: a token read after
    its expiry, which is the time of issue plus the delta or the default
    window, is answered 401 Invalid or expired token, whoever its subject
    is, and the state is left alone. A token issued with a negative delta
    is refused from the second of its issue on. *)
Theorem expired_token_is_refused st data delta now now' :
  jose_rejects_expired E ->
  now + delta_or_default delta < now' ->
  get_current_user (Some (create_access_token data delta now)) now' st
  = (Raise (HTTPException 401 "Invalid or expired token"), st).
Proof.
  intros RE Ht. unfold get_current_user, create_access_token.
  now rewrite (RE _ _ _ (now + delta_or_default delta)).
Qed.

End Sessions.

(** ** Start-up *)

Section Index.

Context {K V : Type} `{Countable K} (key : V -> K).

Lemma index_lookup (l : list V) (m0 : gmap K V) k v :
  foldl (fun m x => <[key x := x]> m) m0 l !! k = Some v ->
  (v ∈ l /\ key v = k) \/ m0 !! k = Some v.
Proof.
  revert m0. induction l as [|x l IH]; intros m0 L; simpl in L; [now right|].
  destruct (IH _ L) as [[Hv Hk]|L0].
  - left. split; [now right|exact Hk].
  - destruct (decide (key x = k)) as [Ek|N].
    + rewrite <- Ek, lookup_insert_eq in L0. injection L0 as <-.
      left. split; [left|exact Ek].
    + rewrite lookup_insert_ne in L0 by exact N. now right.
Qed.

Lemma index_keeps (l : list V) (m0 : gmap K V) k :
  is_Some (m0 !! k) -> is_Some (foldl (fun m x => <[key x := x]> m) m0 l !! k).
Proof.
  revert m0. induction l as [|x l IH]; intros m0 S; simpl; [exact S|].
  apply IH. destruct (decide (key x = k)) as [<-|N].
  - rewrite lookup_insert_eq. eauto.
  - now rewrite lookup_insert_ne.
Qed.

Lemma index_covers (l : list V) (m0 : gmap K V) x :
  x ∈ l -> is_Some (foldl (fun m x => <[key x := x]> m) m0 l !! key x).
Proof.
  revert m0. induction l as [|y l IH]; intros m0 Hx; [inversion Hx|]. simpl.
  apply elem_of_cons in Hx as [<-|Hx]; [|now apply IH].
  apply index_keeps. rewrite lookup_insert_eq. eauto.
Qed.

End Index.

Lemma load_users_indexed tracks users playlists :
  users_indexed (load tracks users playlists).
Proof.
  intros k u L. simpl in *. apply index_lookup in L as [[Hu _]|L]; [exact Hu|].
  now rewrite lookup_empty in L.
Qed.

Lemma load_tracks_indexed tracks users playlists :
  tracks_indexed (load tracks users playlists).
Proof.
  intros i t L. simpl in *. apply index_lookup in L as [[_ Hi]|L]; [exact Hi|].
  now rewrite lookup_empty in L.
Qed.

Lemma load_user_key tracks users playlists k u :
  USERS_BY_EMAIL (load tracks users playlists) !! k = Some u ->
  PyStr.lower (User.email u) = k.
Proof.
  intros L. simpl in *. apply index_lookup in L as [[_ Hk]|L]; [exact Hk|].
  now rewrite lookup_empty in L.
Qed.

(** X19. After start-up the two indexes answer for the files: an entry of
    the e-mail index is a user of the file, filed under its lower-cased
    e-mail, and every user's lower-cased e-mail is a key; an entry of the
    track index is a track of the file, filed under its id, and every
    track's id is a key. *)
Theorem load_builds_indexes tracks users playlists :
  let st := load tracks users playlists in
  users_indexed st
  /\ tracks_indexed st
  /\ (forall k u, USERS_BY_EMAIL st !! k = Some u -> PyStr.lower (User.email u) = k)
  /\ (forall u, u ∈ users -> is_Some (USERS_BY_EMAIL st !! PyStr.lower (User.email u)))
  /\ (forall i t, TRACK_BY_ID st !! i = Some t -> t ∈ tracks)
  /\ (forall t, t ∈ tracks -> Track.id t ∈ dom (TRACK_BY_ID st)).
Proof.
  split; [apply load_users_indexed|]. split; [apply load_tracks_indexed|].
  split; [apply load_user_key|]. simpl. repeat split.
  - intros u Hu. simpl. now apply (index_covers (fun u => PyStr.lower (User.email u))).
  - intros i t L. apply index_lookup in L as [[Ht _]|L]; [exact Ht|].
    now rewrite lookup_empty in L.
  - intros t Ht. apply elem_of_dom. now apply (index_covers Track.id).
Qed.


(** ** The further statements at sample data *)

Lemma symbolic_jose_rejects_expired key minutes :
  jose_rejects_expired (Symbolic.env key minutes).
Proof.
  intros c k now e He Hlt. simpl. unfold Symbolic.decode, Symbolic.encode. simpl.
  rewrite String.eqb_refl, He. destruct (Z.ltb_spec e now); [reflexivity|lia].
Qed.

(** X1 at [Demo.st0]: the query SO finds the track Song. *)
Lemma search_tracks_matches_witness :
  exists outs,
    search_tracks "SO" Demo.base Demo.st0 = (Ok outs, Demo.st0)
    /\ serialize_track Demo.base Demo.song ∈ outs.
Proof.
  destruct (search_tracks_matches "SO" Demo.base Demo.st0) as (outs & E & _ & H).
  exists outs. split; [exact E|].
  apply (H Demo.song); [left|].
  left. exists EmptyString, "ng". reflexivity.
Defined.

(** X3 at the base address of the sample requests. *)
Lemma absolute_audio_url_trailing_slash_witness :
  absolute_audio_url (Demo.base +:+ "/") "a.mp3"
  = absolute_audio_url Demo.base "a.mp3".
Proof.
  exact (proj1 (absolute_audio_url_trailing_slash Demo.base "a.mp3")).
Defined.

(** X4 at [Demo.st1] for a playlist that names the unknown track 5. *)
Lemma populate_playlist_drops_unknown_witness :
  exists out,
    populate_playlist Demo.base (Playlist.set_tracks [1; 5; 1] Demo.mix) Demo.st1
    = (Ok out, Demo.st1)
    /\ Track.out_id <$> PlaylistOut.tracks out = [1; 1].
Proof.
  destruct (populate_playlist_drops_unknown Demo.base
              (Playlist.set_tracks [1; 5; 1] Demo.mix) Demo.st1
              (load_tracks_indexed _ _ _)) as (out & E & T & _).
  exists out. split; [exact E|]. rewrite T. vm_compute. reflexivity.
Defined.

(** X6 at [Demo.st1]: alice gets her playlist 1. *)
Lemma get_playlist_in_listing_witness :
  exists out outs,
    get_playlist 1 Demo.base Demo.alice Demo.st1 = (Ok out, Demo.st1)
    /\ list_playlists Demo.base Demo.alice Demo.st1 = (Ok outs, Demo.st1)
    /\ out ∈ outs.
Proof.
  assert (G : exists out,
             get_playlist 1 Demo.base Demo.alice Demo.st1 = (Ok out, Demo.st1))
    by (eexists; reflexivity).
  destruct G as [out G].
  destruct (get_playlist_in_listing 1 Demo.base Demo.alice Demo.st1 out G)
    as (outs & L & M).
  exists out, outs. split; [exact G|]. split; [exact L|exact M].
Defined.

(** X7 at [Demo.st0]: of the tracks 1, 7, 1, 9 the ids 7 and 9 are
    reported. *)
Lemma create_playlist_unknown_track_witness :
  create_playlist (PlaylistIn.mk "Mix" [1; 7; 1; 9]) Demo.base Demo.alice "T1" Demo.st0
  = (Raise (HTTPException 400 "Unknown track ids: [7, 9]"), Demo.st0).
Proof.
  rewrite (create_playlist_unknown_track (PlaylistIn.mk "Mix" [1; 7; 1; 9])
             Demo.base Demo.alice "T1" Demo.st0 7).
  - reflexivity.
  - right. left.
  - apply not_elem_of_dom. vm_compute. reflexivity.
Defined.

(** X8 at [Demo.st1]: bob creates the playlist 2 and gets it back. *)
Lemma create_playlist_then_get_witness :
  let new_pl := Playlist.mk 2 2 "Road" [1; 1] (Some "T1") (Some "T1") in
  exists out,
    create_playlist (PlaylistIn.mk " Road " [1; 1]) Demo.base Demo.bob "T1" Demo.st1
    = (Ok out, saved [Demo.mix; new_pl] Demo.st1)
    /\ PlaylistOut.id out = 2
    /\ get_playlist 2 Demo.base Demo.bob (saved [Demo.mix; new_pl] Demo.st1)
       = populate_playlist Demo.base new_pl (saved [Demo.mix; new_pl] Demo.st1).
Proof.
  destruct (create_playlist_then_get (PlaylistIn.mk " Road " [1; 1]) Demo.base
              Demo.bob "T1" Demo.st1) as (out & C & I & G).
  - repeat constructor; apply elem_of_dom; eexists; reflexivity.
  - exists out. split; [exact C|]. split; [exact I|].
    rewrite I in G. exact (G Demo.base Demo.bob).
Defined.

(** X9 at [Demo.st1]: alice deletes her playlist 1. *)
Lemma delete_playlist_removes_witness :
  delete_playlist 1 Demo.alice Demo.st1 = (Ok tt, saved [] Demo.st1)
  /\ delete_playlist 1 Demo.alice (saved [] Demo.st1)
     = (Raise (HTTPException 404 "Playlist not found"), saved [] Demo.st1).
Proof.
  destruct (delete_playlist_removes 1 Demo.alice Demo.st1 O Demo.mix) as [D R].
  - apply NoDup_singleton.
  - reflexivity.
  - reflexivity.
  - split; [exact D|]. exact (proj2 (proj2 (R Demo.alice))).
Defined.

(** X10 at [Demo.st1]. *)
Lemma playlist_file_in_sync_witness :
  playlists_in_sync
    (snd (create_playlist (PlaylistIn.mk "a" [1]) Demo.base Demo.bob "T1" Demo.st1))
  /\ playlists_in_sync (snd (delete_playlist 1 Demo.alice Demo.st1)).
Proof.
  destruct (playlist_file_in_sync Demo.st1 eq_refl) as (C & D & _).
  split; [apply C|apply D].
Defined.

(** X11 and X12 at [Demo.st0] without a cookie. *)
Lemma get_current_user_outcomes_witness :
  unauthorized (fst (get_current_user (E := Demo.env) None 0 Demo.st0)).
Proof.
  apply (proj2 (proj2 (proj2
           (get_current_user_outcomes (E := Demo.env) None 0 Demo.st0)))).
  now left.
Defined.

Lemma protected_routes_need_session_witness :
  DELETE_playlist (E := Demo.env) None 0 1 Demo.st1
  = (Raise (HTTPException 401 "Not authenticated"), Demo.st1).
Proof.
  apply (protected_routes_need_session (E := Demo.env) None 0 Demo.st1
           (HTTPException 401 "Not authenticated") eq_refl).
Defined.

(** X13 at [Demo.st0]: carol signs up and asks who she is. *)
Lemma signup_cookie_authenticates_witness :
  exists out st',
    signup (E := Demo.env) (SignupIn.mk "Carol@X.com" "secret1" None) "s" 0 Demo.st0
    = (Ok out, st')
    /\ GET_auth_me (E := Demo.env) (Some (access_token out)) 3599 st'
       = (Ok (PublicUser.mk 3 "carol@x.com" "carol" "user"), st').
Proof.
  assert (S : exists out st',
             signup (E := Demo.env) (SignupIn.mk "Carol@X.com" "secret1" None)
               "s" 0 Demo.st0 = (Ok out, st')
             /\ user out = PublicUser.mk 3 "carol@x.com" "carol" "user")
    by (eexists _, _; split; vm_compute; reflexivity).
  destruct S as (out & st' & S & U).
  destruct (signup_cookie_authenticates (E := Demo.env) Demo.st0
              (SignupIn.mk "Carol@X.com" "secret1" None) "s" 0 3599 out st')
    as (u & _ & _ & _ & M).
  - apply symbolic_jose_round_trip.
  - exact S.
  - vm_compute. reflexivity.
  - exists out, st'. split; [exact S|]. now rewrite <- U.
Defined.

(** X14 at [Demo.st0]: carol signs up. *)
Lemma signup_keeps_repository_witness :
  let st' := snd (signup (E := Demo.env)
                    (SignupIn.mk "Carol@X.com" "secret1" None) "s" 0 Demo.st0) in
  users_indexed st' /\ NoDup (User.id <$> RAW_USERS st').
Proof.
  destruct (signup_keeps_repository (E := Demo.env)
              (SignupIn.mk "Carol@X.com" "secret1" None) "s" 0 Demo.st0)
    as (UI & ND & _).
  - apply load_users_indexed.
  - apply NoDup_cons. split; [|apply NoDup_singleton].
    intros H. apply list_elem_of_singleton in H. discriminate H.
  - split; [exact UI|exact ND].
Defined.

(** X15 at [Demo.st0]: an unknown e-mail, and alice with a wrong
    password. *)
Lemma login_failures_witness :
  fst (login (E := Demo.env) (LoginIn.mk "dave@x.com" "secret1") 0 Demo.st0)
  = Raise (HTTPException 401 "Invalid email or password")
  /\ fst (login (E := Demo.env) (LoginIn.mk "alice@x.com" "secret2") 0 Demo.st0)
     = Raise (HTTPException 401 "Invalid email or password").
Proof.
  split.
  - apply (proj1 (proj2 (login_failures (E := Demo.env)
                           (LoginIn.mk "dave@x.com" "secret1") 0 Demo.st0))).
    vm_compute. reflexivity.
  - apply (proj2 (proj2 (login_failures (E := Demo.env)
                           (LoginIn.mk "alice@x.com" "secret2") 0 Demo.st0))
             Demo.alice).
    + vm_compute. reflexivity.
    + vm_compute. reflexivity.
Defined.

(** X16 at [Demo.st0]: alice logs in. *)
Lemma login_cookie_authenticates_witness :
  exists out u,
    login (E := Demo.env) (LoginIn.mk " Alice@x.com" "secret1") 10 Demo.st0
    = (Ok out, Demo.st0)
    /\ get_current_user (E := Demo.env) (Some (access_token out)) 20 Demo.st0
       = (Ok u, Demo.st0)
    /\ User.id u = PublicUser.id (user out).
Proof.
  assert (L : exists out,
             login (E := Demo.env) (LoginIn.mk " Alice@x.com" "secret1") 10 Demo.st0
             = (Ok out, Demo.st0))
    by (eexists; vm_compute; reflexivity).
  destruct L as (out & L).
  destruct (login_cookie_authenticates (E := Demo.env) Demo.st0
              (LoginIn.mk " Alice@x.com" "secret1") 10 20 out Demo.st0)
    as (_ & u & G & _ & I & _).
  - apply symbolic_jose_round_trip.
  - apply load_users_indexed.
  - exact L.
  - vm_compute. reflexivity.
  - exists out, u. split; [exact L|]. split; [exact G|exact I].
Defined.

(** X17 for alice in [Demo.st0]. *)
Lemma zero_delta_is_default_window_witness :
  exists u',
    get_current_user (E := Demo.env)
      (Some (create_access_token (E := Demo.env)
               (Claims (Some (PyStr.str_of_int (User.id Demo.alice))) None)
               (Some 0) 1000))
      4599 Demo.st0
    = (Ok u', Demo.st0)
    /\ User.id u' = User.id Demo.alice.
Proof.
  apply (zero_delta_is_default_window (E := Demo.env) Demo.st0 Demo.alice 1000 4599).
  - apply symbolic_jose_round_trip.
  - left.
  - vm_compute. reflexivity.
Defined.

(** X18 in [Demo.st0]: a token issued with a delta of one second less
    than nothing, read in the second of its issue. *)
Lemma expired_token_is_refused_witness :
  get_current_user (E := Demo.env)
    (Some (create_access_token (E := Demo.env)
             (Claims (Some "1") None) (Some (-1)) 1000))
    1000 Demo.st0
  = (Raise (HTTPException 401 "Invalid or expired token"), Demo.st0).
Proof.
  apply (expired_token_is_refused (E := Demo.env) Demo.st0
           (Claims (Some "1") None) (Some (-1)) 1000 1000).
  - apply symbolic_jose_rejects_expired.
  - vm_compute. reflexivity.
Defined.

(** X19 at the files of [Demo.st1]. *)
Lemma load_builds_indexes_witness :
  is_Some (USERS_BY_EMAIL Demo.st1 !! "bob@x.com")
  /\ 1 ∈ dom (TRACK_BY_ID Demo.st1).
Proof.
  destruct (load_builds_indexes [Demo.song] [Demo.alice; Demo.bob] (Some [Demo.mix]))
    as (_ & _ & _ & U & _ & T).
  split.
  - apply (U Demo.bob). right. left.
  - apply (T Demo.song). left.
Defined.

